(** * TravelBuddy: the collector, the scheduler and the session store

    A shallow embedding of [travelbuddy.py].  Python dictionaries whose
    iteration order is observable ([unique], [itinerary]) are insertion-ordered
    association lists; dictionaries that are only read by key (preferences, the
    user store) are finite maps.  Objects that are shared and mutated (the
    preference dictionaries) live in an explicit heap. *)

From Stdlib Require Import ZArith QArith Lia Ascii String.
From stdpp Require Import base list strings gmap fin_maps sorting.

Local Open Scope Z_scope.

(** ** Python values *)

(** The scalar values a preference, or an extra field of a search hit, holds. *)
Inductive value :=
  | VNone
  | VBool (b : bool)
  | VInt (n : Z)
  | VStr (s : string).

(** A rating, an int or a float: a number, one of the two infinities, or the
    float that is no number.  [<] on two numbers is the order of their values,
    with the infinities below and above them all; with a NaN on either side
    it is false. *)
Inductive number :=
  | Num (q : Q)
  | PosInf
  | NegInf
  | NaN.

Definition number_lt (a b : number) : bool :=
  match a, b with
  | Num x, Num y => negb (Qle_bool y x)
  | NegInf, (Num _ | PosInf) | Num _, PosInf => true
  | _, _ => false
  end.

Definition is_nan (a : number) : bool :=
  match a with
  | NaN => true
  | _ => false
  end.

(** ** Insertion-ordered dictionaries *)

Module PyDict.
Section Dict.
Context {K V : Type} `{EqDecision K}.

(** [d[k] = v]: an existing key keeps its position, a new key goes last. *)
Fixpoint set (k : K) (v : V) (d : list (K * V)) : list (K * V) :=
  match d with
  | [] => [(k, v)]
  | (k', v') :: d' =>
      if decide (k' = k) then (k, v) :: d' else (k', v') :: set k v d'
  end.

(** [d.get(k)] *)
Fixpoint get (k : K) (d : list (K * V)) : option V :=
  match d with
  | [] => None
  | (k', v') :: d' => if decide (k' = k) then Some v' else get k d'
  end.

(** [d[k]] rewritten by [f] where present: how [d[k].append(x)] acts. *)
Fixpoint alter (f : V → V) (k : K) (d : list (K * V)) : list (K * V) :=
  match d with
  | [] => []
  | (k', v') :: d' =>
      if decide (k' = k) then (k', f v') :: d' else (k', v') :: alter f k d'
  end.

Definition keys (d : list (K * V)) : list K := d.*1.
Definition values (d : list (K * V)) : list V := d.*2.
End Dict.
End PyDict.

(** ** Places *)

(** A search hit: the six fields the collector reads, and whatever else the
    lookup capability returned with them. *)
Record Place := mkPlace {
  name : string;
  description : string;
  rating : number;
  lat : Q;
  lon : Q;
  hours : string;
  extra : list (string * value)
}.

(** [seq[:k]] *)
Definition slice_to {A} (k : Z) (l : list A) : list A :=
  if k <? 0 then take (Z.to_nat (Z.of_nat (length l) + k)) l
  else take (Z.to_nat k) l.

Definition city_museum : Place :=
  mkPlace "City Museum" "Popular museum" (Num (46 # 10)) (407794 # 10000)
    (-739632 # 10000) "09:00-17:00" [].
Definition central_park : Place :=
  mkPlace "Central Park" "Large urban park" (Num (48 # 10)) (40785091 # 1000000)
    (-73968285 # 1000000) "24/7" [].
Definition grand_market : Place :=
  mkPlace "Grand Market" "Local market" (Num (45 # 10)) (407527 # 10000)
    (-739772 # 10000) "08:00-20:00" [].
Definition art_gallery : Place :=
  mkPlace "Art Gallery" "Contemporary art" (Num (44 # 10)) (407614 # 10000)
    (-739776 # 10000) "10:00-18:00" [].

Definition demo_places : list Place :=
  [city_museum; central_park; grand_market; art_gallery].

Definition search_tool_stub (query : string) (top_k : Z) : list Place :=
  slice_to top_k demo_places.

(** ** Research agent *)

(** [list.sort]

    The sort of a list shorter than 64, which is one run: [count_run] finds
    the run the list starts with, a descending run is reversed, and
    [binarysort] inserts the other elements one by one.  Only [<] is ever
    asked.  From 64 elements on [list.sort] merges several such runs; where
    [<] orders the keys that gives the same list, the one stable sort. *)
Module ListSort.
Section Sort.
Context {A : Type} (lt : A → A → bool).
Local Open Scope nat_scope.

(** How many elements of [l] go on a strictly descending run after [prev],
    and how many go on a run that never descends. *)
Fixpoint run_descending (prev : A) (l : list A) : nat :=
  match l with
  | [] => 0
  | x :: l' => if lt x prev then S (run_descending x l') else 0
  end.

Fixpoint run_ascending (prev : A) (l : list A) : nat :=
  match l with
  | [] => 0
  | x :: l' => if lt x prev then 0 else S (run_ascending x l')
  end.

(** The length of the first run and whether it descends. *)
Definition count_run (l : list A) : nat * bool :=
  match l with
  | [] => (0, false)
  | [a] => (1, false)
  | a :: (b :: _) as l' =>
      if lt b a then (S (run_descending a l'), true)
      else (S (run_ascending a l'), false)
  end.

(** The [do ... while (l < r)] of [binarysort]: where [pivot] goes in
    [pre]. *)
Fixpoint bisect (pivot : A) (pre : list A) (l r fuel : nat) : nat :=
  match fuel with
  | 0 => l
  | S fuel' =>
      let p := l + (r - l) / 2 in
      let '(l', r') :=
        if default false (lt pivot <$> pre !! p) then (l, p) else (S p, r) in
      if l' <? r' then bisect pivot pre l' r' fuel' else l'
  end.

Definition binary_insert (pre : list A) (pivot : A) : list A :=
  let i := bisect pivot pre 0 (length pre) (length pre) in
  take i pre ++ pivot :: drop i pre.

Definition binarysort (run rest : list A) : list A :=
  foldl binary_insert run rest.

Definition sort (l : list A) : list A :=
  let '(n, descending) := count_run l in
  let run := if descending then rev (take n l) else take n l in
  binarysort run (drop n l).
End Sort.
End ListSort.

(** [sorted(l, key=key, reverse=reverse)]: with [reverse] the list is
    reversed, sorted and reversed again. *)
Definition sorted {A} (key : A → number) (reverse : bool) (l : list A)
    : list A :=
  let lt x y := number_lt (key x) (key y) in
  if reverse then rev (ListSort.sort lt (rev l)) else ListSort.sort lt l.

Definition compact (p : Place) : Place :=
  {| name := name p; description := description p; rating := rating p;
     lat := lat p; lon := lon p; hours := hours p; extra := [] |}.

(** Where a name first occurs in a list of names (its length if nowhere). *)
Fixpoint first_index (n : string) (names : list string) : nat :=
  match names with
  | [] => 0
  | m :: names' => if decide (m = n) then 0 else S (first_index n names')
  end.

Module ResearchAgent.

(** The hits of all the queries, in the order the loop extends [results]. *)
Definition collect (search_tool : string → Z → list Place)
    (destination : string) (interests : list string) (top_k_each : Z)
    : list Place :=
  foldl (λ results interest,
           results ++ search_tool (destination +:+ " top " +:+ interest)
                        top_k_each)
        [] interests.

Definition dedupe (results : list Place) : list (string * Place) :=
  foldl (λ unique r, PyDict.set (name r) r unique) [] results.

Definition run (search_tool : string → Z → list Place)
    (destination : string) (interests : list string) (top_k_each : Z)
    : list Place :=
  let results := collect search_tool destination interests top_k_each in
  let unique := dedupe results in
  let sorted_places := sorted rating true (PyDict.values unique) in
  compact <$> take 20 sorted_places.

End ResearchAgent.

(** ** Calendar dates

    The proleptic Gregorian calendar of Python's [datetime]: the ordinal of a
    date, its inverse, and the [YYYY-MM-DD] text form in both directions. *)

Inductive exn := ValueError | OverflowError.

Inductive result (A : Type) :=
  | Ok (a : A)
  | Raise (e : exn).
Arguments Ok {A} a.
Arguments Raise {A} e.

Definition bind {A B} (r : result A) (k : A → result B) : result B :=
  match r with
  | Ok a => k a
  | Raise e => Raise e
  end.

Notation "'let!' x ':=' r 'in' k" := (bind r (λ x, k))
  (at level 10, x name, r at level 100, k at level 200, only parsing).

Module Calendar.

Record date := Date { year : Z; month : Z; day : Z }.

Definition MINYEAR : Z := 1.
Definition MAXYEAR : Z := 9999.

Definition is_leap (y : Z) : bool :=
  (y mod 4 =? 0) && (negb (y mod 100 =? 0) || (y mod 400 =? 0)).

Definition days_before_year (y : Z) : Z :=
  let y := y - 1 in
  y * 365 + y / 4 - y / 100 + y / 400.

Definition DAYS_IN_MONTH : list Z :=
  [31; 28; 31; 30; 31; 30; 31; 31; 30; 31; 30; 31].

Definition DAYS_BEFORE_MONTH : list Z :=
  [0; 31; 59; 90; 120; 151; 181; 212; 243; 273; 304; 334].

Definition table (t : list Z) (m : Z) : Z :=
  default 0 (t !! Z.to_nat (m - 1)).

Definition days_in_month (y m : Z) : Z :=
  if (m =? 2) && is_leap y then 29 else table DAYS_IN_MONTH m.

Definition days_before_month (y m : Z) : Z :=
  table DAYS_BEFORE_MONTH m + (if (2 <? m) && is_leap y then 1 else 0).

Definition ymd2ord (y m d : Z) : Z :=
  days_before_year y + days_before_month y m + d.

Definition toordinal (d : date) : Z := ymd2ord (year d) (month d) (day d).

Definition DI400Y : Z := 146097.
Definition DI100Y : Z := 36524.
Definition DI4Y : Z := 1461.

(** The tail of [_ord2ymd]: month and day from the 0-based day of the year. *)
Definition month_day (leapyear : bool) (n : Z) : Z * Z :=
  let month := Z.shiftr (n + 50) 5 in
  let preceding :=
    table DAYS_BEFORE_MONTH month
    + (if (2 <? month) && leapyear then 1 else 0) in
  if n <? preceding then
    let month := month - 1 in
    let preceding :=
      preceding - (table DAYS_IN_MONTH month
                   + (if (month =? 2) && leapyear then 1 else 0)) in
    (month, n - preceding + 1)
  else (month, n - preceding + 1).

Definition ord2ymd (n : Z) : date :=
  let n := n - 1 in
  let n400 := n / DI400Y in
  let n := n mod DI400Y in
  let year := n400 * 400 + 1 in
  let n100 := n / DI100Y in
  let n := n mod DI100Y in
  let n4 := n / DI4Y in
  let n := n mod DI4Y in
  let n1 := n / 365 in
  let n := n mod 365 in
  let year := year + n100 * 100 + n4 * 4 + n1 in
  if (n1 =? 4) || (n100 =? 4) then Date (year - 1) 12 31
  else
    let leapyear := (n1 =? 3) && (negb (n4 =? 24) || (n100 =? 3)) in
    let md := month_day leapyear n in
    Date year md.1 md.2.

Definition MAXORDINAL : Z := 3652059.

(** What the [date] constructor accepts. *)
Definition valid (d : date) : bool :=
  (MINYEAR <=? year d) && (year d <=? MAXYEAR)
  && (1 <=? month d) && (month d <=? 12)
  && (1 <=? day d) && (day d <=? days_in_month (year d) (month d)).

(** [d + timedelta(days=k)] *)
Definition add_days (d : date) (k : Z) : result date :=
  let o := toordinal d + k in
  if (1 <=? o) && (o <=? MAXORDINAL) then Ok (ord2ymd o)
  else Raise OverflowError.

(** [(e - s).days] *)
Definition days_between (s e : date) : Z := toordinal e - toordinal s.

Definition digit_char (n : Z) : ascii := ascii_of_N (Z.to_N (48 + n)).

Definition digit_of (c : ascii) : option Z :=
  let n := Z.of_N (N_of_ascii c) in
  if (48 <=? n) && (n <=? 57) then Some (n - 48) else None.

(** ["%04d-%02d-%02d"] on a date of the supported range *)
Definition isoformat (d : date) : string :=
  let y := year d in
  let m := month d in
  let dd := day d in
  String (digit_char (y / 1000)) (String (digit_char (y / 100 mod 10))
  (String (digit_char (y / 10 mod 10)) (String (digit_char (y mod 10))
  (String "-" (String (digit_char (m / 10)) (String (digit_char (m mod 10))
  (String "-" (String (digit_char (dd / 10))
  (String (digit_char (dd mod 10)) ""))))))))).

Definition number (ds : list ascii) : option Z :=
  foldl (λ acc c, a ← acc; n ← digit_of c; Some (10 * a + n)) (Some 0) ds.

(** [datetime.fromisoformat] on the calendar-date form [YYYY-MM-DD]; the
    result stands for that date at midnight. *)
Definition fromisoformat (s : string) : result date :=
  match s with
  | String y1 (String y2 (String y3 (String y4 (String s1
    (String m1 (String m2 (String s2 (String d1 (String d2 "")))))))))
    =>
      match number [y1; y2; y3; y4], number [m1; m2], number [d1; d2] with
      | Some y, Some m, Some d =>
          if Ascii.eqb s1 "-" && Ascii.eqb s2 "-" && valid (Date y m d)
          then Ok (Date y m d) else Raise ValueError
      | _, _, _ => Raise ValueError
      end
  | _ => Raise ValueError
  end.

End Calendar.

(** ** Planner agent *)

Record ItineraryItem := mkItem {
  day : string;
  time_range : string;
  place : Place
}.

(** [dataclasses.asdict]: the same three fields, as a dictionary. *)
Definition asdict (item : ItineraryItem) : ItineraryItem :=
  {| day := day item; time_range := time_range item; place := place item |}.

Module PlannerAgent.

Definition time_blocks : list string :=
  ["09:00-12:00"; "12:30-15:00"; "15:30-18:00"].

(** The loop state: the itinerary built so far and the cursor [index]. *)
Abbreviation state := (list (string * list ItineraryItem) * nat)%type.

(** [for slot in range(3)]: leaves the loop as soon as the cursor has passed
    the last place. *)
Fixpoint slot_loop (places : list Place) (day_str : string)
    (slots : list nat) (st : state) : state :=
  match slots with
  | [] => st
  | slot :: slots' =>
      match places !! st.2 with
      | None => st
      | Some p =>
          let time_block := default "" (time_blocks !! slot) in
          slot_loop places day_str slots'
            (PyDict.alter (λ items, items ++ [mkItem day_str time_block p])
               day_str st.1,
             S st.2)
      end
  end.

(** [for d in range(days)] *)
Fixpoint day_loop (places : list Place) (sd : Calendar.date)
    (ds : list nat) (st : state) : result state :=
  match ds with
  | [] => Ok st
  | d :: ds' =>
      let! day := Calendar.add_days sd (Z.of_nat d) in
      let day_str := Calendar.isoformat day in
      let itinerary := PyDict.set day_str [] st.1 in
      day_loop places sd ds'
        (slot_loop places day_str (seq 0 3) (itinerary, st.2))
  end.

Definition build_itinerary (places : list Place) (start end_ : string)
    : result (list (string * list ItineraryItem)) :=
  let! sd := Calendar.fromisoformat start in
  let! ed := Calendar.fromisoformat end_ in
  let days := Calendar.days_between sd ed + 1 in
  let! st := day_loop places sd (seq 0 (Z.to_nat days)) ([], 0%nat) in
  Ok ((λ kv : string * list ItineraryItem, (kv.1, asdict <$> kv.2))
      <$> st.1).

End PlannerAgent.

(** ** Sessions and the objects they share *)

Abbreviation loc := positive.
Abbreviation prefs := (gmap string value).

(** A trip record, over the way its preferences are held: [P] is [loc] for a
    record in memory, which refers to a dictionary object, and [prefs] for a
    record in a JSON document, which contains the dictionary. *)
Module Trip.
Record t (P : Type) := mk {
  destination : string;
  start_date : string;
  end_date : string;
  itinerary : list (string * list ItineraryItem);
  preferences : P;
  timestamp : string
}.
Arguments mk {P}.
Arguments destination {P}.
Arguments start_date {P}.
Arguments end_date {P}.
Arguments itinerary {P}.
Arguments preferences {P}.
Arguments timestamp {P}.

Definition map {P Q} (f : P → Q) (r : t P) : t Q :=
  mk (destination r) (start_date r) (end_date r) (itinerary r)
     (f (preferences r)) (timestamp r).
End Trip.

Module Session.
Record t (P : Type) := mk {
  preferences : P;
  trips : list (Trip.t P)
}.
Arguments mk {P}.
Arguments preferences {P}.
Arguments trips {P}.

Definition map {P Q} (f : P → Q) (s : t P) : t Q :=
  mk (f (preferences s)) (Trip.map f <$> trips s).
End Session.

(** The mutable world: the preference dictionaries, by address, and the JSON
    documents on disk, by path. *)
Record world := mkWorld {
  heap : gmap loc prefs;
  files : gmap string (gmap string (Session.t prefs))
}.

(** The dictionary an address holds. *)
Definition deref (w : world) (l : loc) : prefs := heap w !!! l.

(** A new dictionary object. *)
Definition alloc (v : prefs) (w : world) : loc * world :=
  let l := fresh (dom (heap w)) in
  (l, mkWorld (<[l := v]> (heap w)) (files w)).

(** [d.update(p)] on the dictionary at [l] *)
Definition update (l : loc) (p : prefs) (w : world) : world :=
  mkWorld (<[l := p ∪ deref w l]> (heap w)) (files w).

(** What [json.dump] writes for a session: every reference followed. *)
Definition dump_session (w : world) (s : Session.t loc)
    : Session.t prefs :=
  Session.map (deref w) s.

(** What [json.load] builds: a new dictionary object for every dictionary of
    the document. *)
Fixpoint load_trips (ts : list (Trip.t prefs)) (w : world)
    : list (Trip.t loc) * world :=
  match ts with
  | [] => ([], w)
  | r :: ts' =>
      let '(l, w1) := alloc (Trip.preferences r) w in
      let '(rs, w2) := load_trips ts' w1 in
      (Trip.map (λ _, l) r :: rs, w2)
  end.

Definition load_session (s : Session.t prefs) (w : world)
    : Session.t loc * world :=
  let '(l, w1) := alloc (Session.preferences s) w in
  let '(rs, w2) := load_trips (Session.trips s) w1 in
  (Session.mk l rs, w2).

Fixpoint load_sessions (ss : list (string * Session.t prefs)) (w : world)
    : list (string * Session.t loc) * world :=
  match ss with
  | [] => ([], w)
  | (u, s) :: ss' =>
      let '(s', w1) := load_session s w in
      let '(rest, w2) := load_sessions ss' w1 in
      ((u, s') :: rest, w2)
  end.

Definition read_json (path : string) (w : world)
    : gmap string (Session.t loc) * world :=
  match files w !! path with
  | Some doc =>
      let '(ss, w') := load_sessions (map_to_list doc) w in
      (list_to_map ss, w')
  | None => (∅, w)
  end.

Definition write_json (path : string) (data : gmap string (Session.t loc))
    (w : world) : world :=
  mkWorld (heap w) (<[path := dump_session w <$> data]> (files w)).

(** ** Memory bank *)

Module MemoryBank.
Record t := mk {
  path : string;
  data : gmap string (Session.t loc)
}.

Definition init (path : string) (w : world) : t * world :=
  let '(data, w') := read_json path w in
  (mk path data, w').

(** [self.data.get(user_id, {"preferences": {}, "trips": []})]: the stored
    session object itself, or a new session that the store does not hold.
    Like every method, it hands back the object it was called on. *)
Definition get_session (self : t) (user_id : string) (w : world)
    : Session.t loc * t * world :=
  match data self !! user_id with
  | Some session => (session, self, w)
  | None =>
      let '(l, w') := alloc ∅ w in
      (Session.mk l [], self, w')
  end.

Definition save_session (self : t) (user_id : string)
    (session : Session.t loc) (w : world) : t * world :=
  let self' := mk (path self) (<[user_id := session]> (data self)) in
  (self', write_json (path self') (data self') w).
End MemoryBank.

(** ** Orchestrator *)

Module TravelBuddy.
Record t := mk {
  memory : MemoryBank.t;
  search_tool : string → Z → list Place
}.

Record summary := mkSummary {
  destination : string;
  days : nat;
  places_considered : nat;
  memory_saved : bool
}.

Record output := mkOutput {
  out_itinerary : list (string * list ItineraryItem);
  out_places : list Place;
  out_session : Session.t loc;
  out_summary : summary
}.

Definition init (store_path : string)
    (search_tool : string → Z → list Place) (w : world) : t * world :=
  let '(m, w') := MemoryBank.init store_path w in
  (mk m search_tool, w').

(** [now] is the text of [datetime.utcnow().isoformat()] at the call.  An
    exception leaves the object and the world as they are when it is
    raised. *)
Definition plan_trip (self : t)
    (user_id destination start_date end_date : string)
    (interests : list string) (preferences : option prefs) (now : string)
    (w : world) : result output * t * world :=
  let preferences := default ∅ preferences in
  let '(session, m1, w1) :=
    MemoryBank.get_session (memory self) user_id w in
  let w2 := update (Session.preferences session) preferences w1 in
  let places :=
    ResearchAgent.run (search_tool self) destination interests 5 in
  let top_places := take 12 places in
  match PlannerAgent.build_itinerary top_places start_date end_date with
  | Raise e => (Raise e, mk m1 (search_tool self), w2)
  | Ok itinerary =>
      let record :=
        Trip.mk destination start_date end_date itinerary
          (Session.preferences session) now in
      let session :=
        Session.mk (Session.preferences session)
          (Session.trips session ++ [record]) in
      let '(m, w3) := MemoryBank.save_session m1 user_id session w2 in
      (Ok (mkOutput itinerary top_places session
             (mkSummary destination (length itinerary) (length top_places)
                true)),
       mk m (search_tool self), w3)
  end.
End TravelBuddy.

(** ** Definitions the statements and proofs below use *)

(** Order and ties of ratings: [<=] and [==] of Python, both false with a
    NaN on either side. *)
Definition number_le (a b : number) : Prop :=
  match a, b with
  | Num x, Num y => (x <= y)%Q
  | NegInf, (Num _ | PosInf | NegInf) | (Num _ | PosInf), PosInf => True
  | _, _ => False
  end.

Definition number_eq (a b : number) : Prop :=
  match a, b with
  | Num x, Num y => (x == y)%Q
  | PosInf, PosInf | NegInf, NegInf => True
  | _, _ => False
  end.

(** A rational for every rating, in the order of the ratings that are not
    NaN: [n/d] goes to [n/(d+|n|)], strictly between the [-1] and [1] of the
    infinities. *)
Definition squash (q : Q) : Q :=
  Qnum q # Z.to_pos (Z.pos (Qden q) + Z.abs (Qnum q)).

Definition value_of (a : number) : Q :=
  match a with
  | Num q => squash q
  | PosInf => 1
  | NegInf => -1
  | NaN => 0
  end.

Definition desc {A} (key : A → number) (x y : A) : Prop :=
  number_le (key y) (key x).

(** No key of the list is NaN. *)
Definition ordered {A} (key : A → number) (l : list A) : Prop :=
  Forall (λ x, is_nan (key x) = false) l.

(** [<], its order and its ties on keys that are rationals. *)
Definition qlt {A} (q : A → Q) (x y : A) : bool :=
  negb (Qle_bool (q y) (q x)).
Definition asc {A} (q : A → Q) (x y : A) : Prop := (q x <= q y)%Q.
Definition same_q {A} (q : A → Q) (r : Q) (x : A) : Prop :=
  Qeq_bool (q x) r = true.

#[global] Instance same_q_dec {A} (q : A → Q) r x : Decision (same_q q r x).
Proof. unfold same_q. apply _. Defined.

(** A lookup capability with five names of its own for every query, all of
    one rating. *)
Definition numbered_tool (query : string) (top_k : Z) : list Place :=
  slice_to top_k
    ((λ tag, mkPlace (query +:+ tag) "" (Num 4) 0 0 "" [])
       <$> ["a"; "b"; "c"; "d"; "e"]).

(** A lookup capability whose second hit has a rating that is no number. *)
Definition nan_tool (query : string) (top_k : Z) : list Place :=
  slice_to top_k
    [ mkPlace "A" "" (Num 1) 0 0 "" [];
      mkPlace "B" "" NaN 0 0 "" [];
      mkPlace "C" "" (Num 2) 0 0 "" [] ].

Module CalendarAux.
Import Calendar.

(** [days_in_month] and [days_before_month] over the leap flag of the year. *)
Definition dim (leap : bool) (m : Z) : Z :=
  if (m =? 2) && leap then 29 else table DAYS_IN_MONTH m.

Definition dbm (leap : bool) (m : Z) : Z :=
  table DAYS_BEFORE_MONTH m + (if (2 <? m) && leap then 1 else 0).

Definition month_day_ok (leap : bool) (n : Z) : bool :=
  let md := month_day leap n in
  (1 <=? md.1) && (md.1 <=? 12) && (1 <=? md.2) && (md.2 <=? dim leap md.1)
  && (dbm leap md.1 + md.2 =? n + 1).

Definition day_month_ok (leap : bool) (m d : Z) : bool :=
  negb ((1 <=? d) && (d <=? dim leap m))
  || ((fst (month_day leap (dbm leap m + d - 1)) =? m)
      && (snd (month_day leap (dbm leap m + d - 1)) =? d)
      && (0 <=? dbm leap m + d - 1)
      && (dbm leap m + d - 1 <? 365 + (if leap then 1 else 0))).
End CalendarAux.

Definition day_items (day_str : string) (chunk : list Place)
    : list ItineraryItem :=
  zip_with (mkItem day_str) PlannerAgent.time_blocks chunk.

(** The date of day [d] of a range that starts on [sd], as text. *)
Definition day_key (sd : Calendar.date) (d : nat) : string :=
  Calendar.isoformat
    (Calendar.ord2ymd (Calendar.toordinal sd + Z.of_nat d)).

(** The itinerary of the first [n] days: day [d] holds places [3d], [3d+1]
    and [3d+2], as far as they exist. *)
Definition schedule (places : list Place) (sd : Calendar.date) (n : nat)
    : list (string * list ItineraryItem) :=
  (λ d, (day_key sd d, day_items (day_key sd d) (drop (3 * d) places)))
    <$> seq 0 n.

(** Two records, each in its world, have the same fields and preferences of
    the same content. *)
Definition same_record (w1 : world) (r1 : Trip.t loc)
    (w2 : world) (r2 : Trip.t loc) : Prop :=
  Trip.destination r1 = Trip.destination r2
  ∧ Trip.start_date r1 = Trip.start_date r2
  ∧ Trip.end_date r1 = Trip.end_date r2
  ∧ Trip.itinerary r1 = Trip.itinerary r2
  ∧ deref w1 (Trip.preferences r1) = deref w2 (Trip.preferences r2)
  ∧ Trip.timestamp r1 = Trip.timestamp r2.

(** The worlds and calls the examples of the store use. *)
Definition empty_world : world := mkWorld ∅ ∅.

(** The preferences of a user's first trip record, as the bank in memory has
    them and as the file has them. *)
Definition first_trip_preferences (self : TravelBuddy.t) (user_id : string)
    (w : world) : option prefs :=
  session ← MemoryBank.data (TravelBuddy.memory self) !! user_id;
  record ← head (Session.trips session);
  Some (deref w (Trip.preferences record)).

Definition first_trip_on_disk (path user_id : string) (w : world)
    : option prefs :=
  doc ← files w !! path;
  session ← doc !! user_id;
  record ← head (Session.trips session);
  Some (Trip.preferences record).

Definition demo_path : string := "memory/memory_bank.json".

(** A first trip with [diet = veg], then a second trip for the same user with
    [diet = vegan]: by the same orchestrator ([same_process]), and by one
    built anew on the same path after the first trip ([restarted]). *)
Definition first_call (self : TravelBuddy.t) (w : world)
    : TravelBuddy.t * world :=
  let '(_, self', w') :=
    TravelBuddy.plan_trip self "demo_user" "Chennai" "2025-12-10" "2025-12-12"
      ["beaches"; "markets"] (Some {["diet" := VStr "veg"]})
      "2025-12-01T10:00:00" w in
  (self', w').

Definition second_call (self : TravelBuddy.t) (w : world)
    : TravelBuddy.t * world :=
  let '(_, self', w') :=
    TravelBuddy.plan_trip self "demo_user" "Goa" "2026-01-10" "2026-01-11"
      ["beaches"] (Some {["diet" := VStr "vegan"]})
      "2026-01-02T09:00:00" w in
  (self', w').

Definition after_first : TravelBuddy.t * world :=
  let '(tb, w) := TravelBuddy.init demo_path search_tool_stub empty_world in
  first_call tb w.

Definition same_process : TravelBuddy.t * world :=
  second_call after_first.1 after_first.2.

Definition restarted : TravelBuddy.t * world :=
  let '(tb, w) :=
    TravelBuddy.init demo_path search_tool_stub after_first.2 in
  second_call tb w.

(** The last hit of a name. *)
Definition last_named (n : string) (rs : list Place) : option Place :=
  last (filter (λ r, name r = n) rs).

(** Every record of the session refers to the session's own preference
    dictionary. *)
Definition shares_preferences (s : Session.t loc) : Prop :=
  Forall (λ r, Trip.preferences r = Session.preferences s) (Session.trips s).

(** * Properties *)

(** ** The calendar *)

Module CalendarFacts.
Import Calendar CalendarAux.

Example ordinal_examples :
  toordinal (Date 1970 1 1) = 719163
  ∧ toordinal (Date 2025 12 20) = 739605
  ∧ toordinal (Date 9999 12 31) = MAXORDINAL
  ∧ ord2ymd 730179 = Date 2000 2 29
  ∧ ord2ymd 146097 = Date 400 12 31.
Proof. repeat split; vm_compute; reflexivity. Qed.

Example isoformat_examples :
  fromisoformat "2025-12-20" = Ok (Date 2025 12 20)
  ∧ fromisoformat "2025-13-19" = Raise ValueError
  ∧ fromisoformat "2025-02-29" = Raise ValueError
  ∧ isoformat (Date 33 1 9) = "0033-01-09"
  ∧ add_days (Date 9999 12 31) 1 = Raise OverflowError.
Proof. repeat split; vm_compute; reflexivity. Qed.

Lemma is_leap_spec y :
  is_leap y = true ↔ y mod 4 = 0 ∧ (y mod 100 ≠ 0 ∨ y mod 400 = 0).
Proof.
  unfold is_leap.
  rewrite andb_true_iff, orb_true_iff, negb_true_iff, !Z.eqb_eq, Z.eqb_neq.
  reflexivity.
Qed.

(* year part *)
Lemma year_split (n : Z) :
  0 ≤ n →
  let n400 := n / DI400Y in
  let r400 := n mod DI400Y in
  let n100 := r400 / DI100Y in
  let r100 := r400 mod DI100Y in
  let n4 := r100 / DI4Y in
  let r4 := r100 mod DI4Y in
  let n1 := r4 / 365 in
  let r1 := r4 mod 365 in
  let y := n400 * 400 + n100 * 100 + n4 * 4 + n1 in
  0 ≤ n400 ∧ 0 ≤ n100 ≤ 4 ∧ 0 ≤ n4 ≤ 24 ∧ 0 ≤ n1 ≤ 4 ∧ 0 ≤ r1 < 365
  ∧ n = n400 * 146097 + n100 * 36524 + n4 * 1461 + n1 * 365 + r1
  ∧ (n100 = 4 → n4 = 0 ∧ n1 = 0 ∧ r1 = 0)
  ∧ (n1 = 4 → r1 = 0 ∧ n4 ≠ 24).
Proof.
  intros Hn. unfold DI400Y, DI100Y, DI4Y. cbv zeta.
  Z.div_mod_to_equations. lia.
Qed.

Lemma days_before_year_split (a b c e : Z) :
  0 ≤ a → 0 ≤ b ≤ 3 → 0 ≤ c ≤ 24 → 0 ≤ e ≤ 3 →
  days_before_year (a * 400 + b * 100 + c * 4 + e + 1)
  = a * 146097 + b * 36524 + c * 1461 + e * 365.
Proof.
  intros. unfold days_before_year. cbv zeta.
  Z.div_mod_to_equations. lia.
Qed.

Lemma month_day_check :
  forallb (λ k, month_day_ok false (Z.of_nat k)) (seq 0 365)
  && forallb (λ k, month_day_ok true (Z.of_nat k)) (seq 0 366) = true.
Proof. vm_compute. reflexivity. Qed.

Lemma month_day_spec (leap : bool) (n : Z) :
  0 ≤ n < 365 + (if leap then 1 else 0) →
  let md := month_day leap n in
  1 ≤ md.1 ≤ 12 ∧ 1 ≤ md.2 ≤ dim leap md.1 ∧ dbm leap md.1 + md.2 = n + 1.
Proof.
  intros Hn.
  assert (month_day_ok leap n = true) as Hok.
  { pose proof month_day_check as Hc.
    apply andb_true_iff in Hc as [Hf Ht].
    rewrite forallb_forall in Hf, Ht.
    replace n with (Z.of_nat (Z.to_nat n)) by lia.
    destruct leap; [apply Ht | apply Hf]; apply in_seq; lia. }
  unfold month_day_ok in Hok. cbv zeta in Hok.
  rewrite !andb_true_iff, !Z.leb_le, Z.eqb_eq in Hok. cbv zeta. lia.
Qed.

Lemma day_month_check :
  forallb (λ leap,
    forallb (λ m,
      forallb (λ d, day_month_ok leap (Z.of_nat m) (Z.of_nat d)) (seq 1 31))
      (seq 1 12)) [false; true] = true.
Proof. vm_compute. reflexivity. Qed.

Lemma day_month_spec (leap : bool) (m d : Z) :
  1 ≤ m ≤ 12 → 1 ≤ d ≤ dim leap m →
  month_day leap (dbm leap m + d - 1) = (m, d)
  ∧ 0 ≤ dbm leap m + d - 1 < 365 + (if leap then 1 else 0).
Proof.
  intros Hm Hd.
  assert (d ≤ 31) as Hd31.
  { revert Hd. unfold dim, table.
    assert (∃ k, (k < 12)%nat ∧ Z.to_nat (m - 1) = k) as (k & Hk & ->)
      by (eexists; split; [|reflexivity]; lia).
    do 12 (destruct k as [|k]; [destruct ((m =? 2) && leap); simpl; lia|]).
    lia. }
  assert (day_month_ok leap m d = true) as Hok.
  { pose proof day_month_check as Hc.
    rewrite forallb_forall in Hc.
    specialize (Hc leap). rewrite forallb_forall in Hc.
    assert (In leap [false; true]) as Hl by (destruct leap; simpl; auto).
    specialize (Hc Hl (Z.to_nat m)). rewrite forallb_forall in Hc.
    assert (In (Z.to_nat m) (seq 1 12)) as Hin by (apply in_seq; lia).
    specialize (Hc Hin (Z.to_nat d)).
    rewrite !Z2Nat.id in Hc by lia. apply Hc. apply in_seq. lia. }
  unfold day_month_ok in Hok.
  apply orb_true_iff in Hok as [Hok | Hok].
  - apply negb_true_iff, andb_false_iff in Hok. rewrite !Z.leb_gt in Hok. lia.
  - rewrite !andb_true_iff, !Z.eqb_eq, Z.leb_le, Z.ltb_lt in Hok.
    destruct Hok as [[[H1 H2] H3] H4].
    destruct (month_day leap (dbm leap m + d - 1)) as [m' d'].
    simpl in *. subst. auto.
Qed.

Lemma is_leap_split (a b c e : Z) :
  0 ≤ a → 0 ≤ b ≤ 3 → 0 ≤ c ≤ 24 → 0 ≤ e ≤ 3 →
  is_leap (a * 400 + b * 100 + c * 4 + e + 1)
  = (e =? 3) && (negb (c =? 24) || (b =? 3)).
Proof.
  intros. apply eq_true_iff_eq.
  rewrite is_leap_spec.
  rewrite andb_true_iff, orb_true_iff, negb_true_iff, !Z.eqb_eq, Z.eqb_neq.
  Z.div_mod_to_equations. lia.
Qed.

Lemma valid_spec (y m d : Z) :
  valid (Date y m d) = true
  ↔ 1 ≤ y ≤ 9999 ∧ 1 ≤ m ≤ 12 ∧ 1 ≤ d ≤ dim (is_leap y) m.
Proof.
  unfold valid, days_in_month, dim, MINYEAR, MAXYEAR. simpl.
  rewrite !andb_true_iff, !Z.leb_le. lia.
Qed.

Lemma ymd2ord_dbm (y m d : Z) :
  ymd2ord y m d = days_before_year y + dbm (is_leap y) m + d.
Proof. reflexivity. Qed.

Lemma toordinal_ord2ymd (n : Z) :
  1 ≤ n ≤ MAXORDINAL →
  toordinal (ord2ymd n) = n ∧ valid (ord2ymd n) = true.
Proof.
  intros Hn. unfold MAXORDINAL in Hn.
  pose proof (year_split (n - 1)) as Hs.
  unfold ord2ymd. cbv zeta in *.
  set (n400 := (n - 1) / DI400Y) in *.
  set (r400 := (n - 1) mod DI400Y) in *.
  set (n100 := r400 / DI100Y) in *.
  set (r100 := r400 mod DI100Y) in *.
  set (n4 := r100 / DI4Y) in *.
  set (r4 := r100 mod DI4Y) in *.
  set (n1 := r4 / 365) in *.
  set (r1 := r4 mod 365) in *.
  destruct Hs as (Ha & Hb & Hc & He & Hr & Hsum & H100 & H1); [lia|].
  clearbody n400 n100 n4 n1 r1. clear r400 r100 r4.
  destruct ((n1 =? 4) || (n100 =? 4)) eqn:Hspecial.
  - (* the last day of a leap year *)
    apply orb_true_iff in Hspecial. rewrite !Z.eqb_eq in Hspecial.
    replace (n400 * 400 + 1 + n100 * 100 + n4 * 4 + n1 - 1)
      with (n400 * 400 + n100 * 100 + n4 * 4 + n1) by lia.
    assert (∃ a b c,
      0 ≤ a ∧ 0 ≤ b ≤ 3 ∧ 0 ≤ c ≤ 24
      ∧ n400 * 400 + n100 * 100 + n4 * 4 + n1
        = a * 400 + b * 100 + c * 4 + 3 + 1
      ∧ (c ≠ 24 ∨ b = 3)
      ∧ n - 1 = a * 146097 + b * 36524 + c * 1461 + 3 * 365 + 365)
      as (a & b & c & Ha' & Hb' & Hc' & Hy & Hleap & Hn').
    { destruct (Z.eq_dec n100 4) as [E|E].
      - exists n400, 3, 24. lia.
      - exists n400, n100, n4. lia. }
    rewrite Hy. unfold toordinal. simpl year. simpl month. simpl day.
    split.
    + rewrite ymd2ord_dbm, days_before_year_split, is_leap_split by lia.
      replace (3 =? 3) with true by reflexivity.
      assert ((negb (c =? 24) || (b =? 3)) = true) as ->.
      { apply orb_true_iff. rewrite negb_true_iff, Z.eqb_neq, Z.eqb_eq. lia. }
      vm_compute dbm. lia.
    + apply valid_spec. rewrite is_leap_split by lia.
      assert (∀ l, dim l 12 = 31) as -> by (intros []; reflexivity). lia.
  - apply orb_false_iff in Hspecial. rewrite !Z.eqb_neq in Hspecial.
    replace (n400 * 400 + 1 + n100 * 100 + n4 * 4 + n1)
      with (n400 * 400 + n100 * 100 + n4 * 4 + n1 + 1) by lia.
    set (leap := (n1 =? 3) && (negb (n4 =? 24) || (n100 =? 3))).
    assert (is_leap (n400 * 400 + n100 * 100 + n4 * 4 + n1 + 1) = leap)
      as Hleap by (apply is_leap_split; lia).
    pose proof (month_day_spec leap r1) as Hmd.
    destruct Hmd as (Hm & Hd & Hdoy); [destruct leap; lia|].
    unfold toordinal. simpl year. simpl month. simpl day.
    split.
    + rewrite ymd2ord_dbm, days_before_year_split, Hleap by lia. lia.
    + apply valid_spec. rewrite Hleap. lia.
Qed.

Lemma years_join (y : Z) :
  1 ≤ y →
  ∃ a b c e,
    0 ≤ a ∧ 0 ≤ b ≤ 3 ∧ 0 ≤ c ≤ 24 ∧ 0 ≤ e ≤ 3
    ∧ y = a * 400 + b * 100 + c * 4 + e + 1.
Proof.
  intros Hy.
  exists ((y - 1) / 400), ((y - 1) mod 400 / 100),
    ((y - 1) mod 100 / 4), ((y - 1) mod 4).
  Z.div_mod_to_equations. lia.
Qed.

Lemma ord2ymd_split (a b c e r : Z) :
  0 ≤ a → 0 ≤ b ≤ 4 → 0 ≤ c ≤ 24 → 0 ≤ e ≤ 4 → 0 ≤ r < 365 →
  (b = 4 → c = 0 ∧ e = 0 ∧ r = 0) → (e = 4 → r = 0 ∧ c ≠ 24) →
  ord2ymd (a * 146097 + b * 36524 + c * 1461 + e * 365 + r + 1)
  = if (e =? 4) || (b =? 4)
    then Date (a * 400 + b * 100 + c * 4 + e) 12 31
    else
      let leap := (e =? 3) && (negb (c =? 24) || (b =? 3)) in
      Date (a * 400 + b * 100 + c * 4 + e + 1)
        (month_day leap r).1 (month_day leap r).2.
Proof.
  intros Ha Hb Hc He Hr Hb4 He4. unfold ord2ymd. cbv zeta.
  set (n := a * 146097 + b * 36524 + c * 1461 + e * 365 + r + 1 - 1).
  assert (n / DI400Y = a) as E400
    by (unfold DI400Y; subst n; Z.div_mod_to_equations; lia).
  assert (n mod DI400Y = b * 36524 + c * 1461 + e * 365 + r) as R400
    by (unfold DI400Y in *; subst n; Z.div_mod_to_equations; lia).
  rewrite E400, R400. clear E400 R400 n.
  set (n := b * 36524 + c * 1461 + e * 365 + r).
  assert (n / DI100Y = b) as E100
    by (unfold DI100Y; subst n; Z.div_mod_to_equations; lia).
  assert (n mod DI100Y = c * 1461 + e * 365 + r) as R100
    by (unfold DI100Y in *; subst n; Z.div_mod_to_equations; lia).
  rewrite E100, R100. clear E100 R100 n.
  set (n := c * 1461 + e * 365 + r).
  assert (n / DI4Y = c) as E4
    by (unfold DI4Y; subst n; Z.div_mod_to_equations; lia).
  assert (n mod DI4Y = e * 365 + r) as R4
    by (unfold DI4Y in *; subst n; Z.div_mod_to_equations; lia).
  rewrite E4, R4. clear E4 R4 n.
  assert ((e * 365 + r) / 365 = e) as E1 by (Z.div_mod_to_equations; lia).
  assert ((e * 365 + r) mod 365 = r) as R1 by (Z.div_mod_to_equations; lia).
  rewrite E1, R1.
  destruct ((e =? 4) || (b =? 4)); f_equal; lia.
Qed.

Lemma ord2ymd_toordinal (d : date) :
  valid d = true →
  ord2ymd (toordinal d) = d ∧ 1 ≤ toordinal d ≤ MAXORDINAL.
Proof.
  destruct d as [y m d]. intros Hv. apply valid_spec in Hv.
  destruct Hv as (Hy & Hm & Hd).
  destruct (years_join y) as (a & b & c & e & Ha & Hb & Hc & He & ->); [lia|].
  unfold toordinal, MAXORDINAL. simpl year. simpl month. simpl day.
  rewrite ymd2ord_dbm, days_before_year_split by lia.
  rewrite is_leap_split in * by lia.
  set (leap := (e =? 3) && (negb (c =? 24) || (b =? 3))) in *.
  destruct (day_month_spec leap m d Hm Hd) as [Hmd Hdoy].
  set (r := dbm leap m + d - 1) in *.
  replace (a * 146097 + b * 36524 + c * 1461 + e * 365 + dbm leap m + d)
    with (a * 146097 + b * 36524 + c * 1461 + e * 365 + r + 1) by lia.
  destruct (Z.eq_dec r 365) as [E|E].
  - (* day 366 of a leap year *)
    assert (leap = true) as Hleap by (destruct leap; [easy | lia]).
    rewrite Hleap, E in Hmd. vm_compute in Hmd. injection Hmd as <- <-.
    unfold leap in Hleap.
    rewrite andb_true_iff, orb_true_iff, negb_true_iff in Hleap.
    rewrite !Z.eqb_eq, Z.eqb_neq in Hleap.
    destruct Hleap as [-> Hcb].
    split.
    + destruct (Z.eq_dec c 24) as [-> | Hc24].
      * assert (b = 3) as -> by lia.
        replace (a * 146097 + 3 * 36524 + 24 * 1461 + 3 * 365 + r + 1)
          with (a * 146097 + 4 * 36524 + 0 * 1461 + 0 * 365 + 0 + 1) by lia.
        rewrite ord2ymd_split by lia. simpl. f_equal. lia.
      * replace (a * 146097 + b * 36524 + c * 1461 + 3 * 365 + r + 1)
          with (a * 146097 + b * 36524 + c * 1461 + 4 * 365 + 0 + 1) by lia.
        rewrite ord2ymd_split by lia. simpl. f_equal. lia.
    + assert (a ≤ 23 ∨ a = 24) as [? | ->] by lia; [lia|].
      assert (b ≤ 2 ∨ b = 3) as [? | ->] by lia; [lia|].
      assert (c ≤ 23 ∨ c = 24) as [? | ->] by lia; lia.
  - assert (0 ≤ r < 365) as Hr by (destruct leap; lia).
    rewrite ord2ymd_split by lia.
    replace ((e =? 4) || (b =? 4)) with false
      by (symmetry; apply orb_false_iff; rewrite !Z.eqb_neq; lia).
    cbv zeta. fold leap. rewrite Hmd. simpl.
    split; [reflexivity|].
    assert (a ≤ 23 ∨ a = 24) as [? | ->] by lia; [lia|].
    assert (b ≤ 2 ∨ b = 3) as [? | ->] by lia; [lia|].
    assert (c ≤ 23 ∨ c = 24) as [? | ->] by lia; lia.
Qed.

Lemma digit_of_char (n : Z) : 0 ≤ n ≤ 9 → digit_of (digit_char n) = Some n.
Proof.
  intros Hn.
  assert (n = 0 ∨ n = 1 ∨ n = 2 ∨ n = 3 ∨ n = 4 ∨ n = 5 ∨ n = 6 ∨ n = 7
          ∨ n = 8 ∨ n = 9) as Hcases by lia.
  repeat (destruct Hcases as [-> | Hcases]; [reflexivity|]).
  subst. reflexivity.
Qed.

Lemma number2 (a b : Z) :
  0 ≤ a ≤ 9 → 0 ≤ b ≤ 9 →
  number [digit_char a; digit_char b] = Some (10 * a + b).
Proof.
  intros Ha Hb. unfold number. simpl.
  rewrite !digit_of_char by lia. simpl. f_equal; lia.
Qed.

Lemma number4 (a b c d : Z) :
  0 ≤ a ≤ 9 → 0 ≤ b ≤ 9 → 0 ≤ c ≤ 9 → 0 ≤ d ≤ 9 →
  number [digit_char a; digit_char b; digit_char c; digit_char d]
  = Some (1000 * a + 100 * b + 10 * c + d).
Proof.
  intros Ha Hb Hc Hd. unfold number. simpl.
  rewrite !digit_of_char by lia. simpl. f_equal; lia.
Qed.

Lemma dim_le_31 (leap : bool) (m : Z) : dim leap m ≤ 31.
Proof.
  unfold dim, table.
  destruct ((m =? 2) && leap); [lia|].
  generalize (Z.to_nat (m - 1)). intros k.
  do 12 (destruct k as [|k]; [simpl; lia|]). simpl. lia.
Qed.

Lemma fromisoformat_isoformat (d : date) :
  valid d = true → fromisoformat (isoformat d) = Ok d.
Proof.
  destruct d as [y m d]. intros Hv.
  pose proof Hv as Hv'. apply valid_spec in Hv' as (Hy & Hm & Hd).
  pose proof (dim_le_31 (is_leap y) m) as H31.
  unfold isoformat, fromisoformat. simpl year. simpl month. simpl day.
  cbv iota beta.
  rewrite number4, !number2 by (Z.div_mod_to_equations; lia).
  replace (1000 * (y / 1000) + 100 * (y / 100 mod 10) + 10 * (y / 10 mod 10)
           + y mod 10) with y by (Z.div_mod_to_equations; lia).
  replace (10 * (m / 10) + m mod 10) with m by (Z.div_mod_to_equations; lia).
  replace (10 * (d / 10) + d mod 10) with d by (Z.div_mod_to_equations; lia).
  rewrite Hv. reflexivity.
Qed.

Lemma isoformat_inj (d1 d2 : date) :
  valid d1 = true → valid d2 = true → isoformat d1 = isoformat d2 → d1 = d2.
Proof.
  intros H1 H2 E.
  apply fromisoformat_isoformat in H1, H2. rewrite E in H1. congruence.
Qed.
End CalendarFacts.

(** ** Insertion-ordered dictionaries *)

Section dict_facts.
Context {K V : Type} `{EqDecision K}.
Implicit Types (k : K) (v : V) (d : list (K * V)).

Lemma dict_keys_set_in k v d :
  k ∈ PyDict.keys d → PyDict.keys (PyDict.set k v d) = PyDict.keys d.
Proof.
  unfold PyDict.keys. induction d as [|[k' v'] d IH]; csimpl.
  - intros []%elem_of_nil.
  - intros Hin. destruct (decide (k' = k)) as [->|Hne]; csimpl; [done|].
    f_equal. apply IH. apply elem_of_cons in Hin as [->|]; done.
Qed.

Lemma dict_keys_set_fresh k v d :
  k ∉ PyDict.keys d → PyDict.keys (PyDict.set k v d) = PyDict.keys d ++ [k].
Proof.
  unfold PyDict.keys. induction d as [|[k' v'] d IH]; csimpl; [done|].
  intros Hin. apply not_elem_of_cons in Hin as [Hne Hin].
  destruct (decide (k' = k)) as [->|_]; csimpl; [done|].
  f_equal. by apply IH.
Qed.

Lemma dict_get_set_eq k v d : PyDict.get k (PyDict.set k v d) = Some v.
Proof.
  induction d as [|[k' v'] d IH]; simpl.
  - by rewrite decide_True.
  - destruct (decide (k' = k)) as [->|Hne]; simpl.
    + by rewrite decide_True.
    + by rewrite decide_False.
Qed.

Lemma dict_get_set_ne k k' v d :
  k ≠ k' → PyDict.get k' (PyDict.set k v d) = PyDict.get k' d.
Proof.
  intros Hne. induction d as [|[k0 v0] d IH]; simpl.
  - by rewrite decide_False.
  - destruct (decide (k0 = k)) as [->|Hne0]; simpl.
    + by rewrite !decide_False.
    + by rewrite IH.
Qed.

Lemma dict_get_elem_of k v d :
  NoDup (PyDict.keys d) → (k, v) ∈ d → PyDict.get k d = Some v.
Proof.
  unfold PyDict.keys. induction d as [|[k0 v0] d IH]; csimpl.
  - intros _ []%elem_of_nil.
  - intros [Hk0 Hnd]%NoDup_cons [[= -> ->]|Hin]%elem_of_cons.
    + by rewrite decide_True.
    + rewrite decide_False; [by apply IH|].
      intros ->. apply Hk0. apply list_elem_of_fmap. by exists (k, v).
Qed.

Lemma dict_keys_set_NoDup k v d :
  NoDup (PyDict.keys d) → NoDup (PyDict.keys (PyDict.set k v d)).
Proof.
  intros Hnd. destruct (decide (k ∈ PyDict.keys d)) as [Hin|Hin].
  - by rewrite dict_keys_set_in.
  - rewrite dict_keys_set_fresh by done.
    apply NoDup_app. split_and!; [done| |apply NoDup_singleton].
    intros k' Hk' ->%list_elem_of_singleton. done.
Qed.
End dict_facts.

(** ** First occurrences *)

Lemma first_index_lt (n : string) (l : list string) :
  n ∈ l → (first_index n l < length l)%nat.
Proof.
  induction l as [|m l IH]; simpl.
  - intros []%elem_of_nil.
  - intros Hin. destruct (decide (m = n)) as [->|Hne]; [lia|].
    apply elem_of_cons in Hin as [->|Hin]; [done|].
    specialize (IH Hin). lia.
Qed.

Lemma first_index_absent (n : string) (l : list string) :
  n ∉ l → first_index n l = length l.
Proof.
  induction l as [|m l IH]; simpl; [done|].
  intros [Hne Hin]%not_elem_of_cons.
  rewrite decide_False by done. by rewrite IH.
Qed.

Lemma first_index_app (n : string) (l k : list string) :
  n ∈ l → first_index n (l ++ k) = first_index n l.
Proof.
  induction l as [|m l IH]; simpl.
  - intros []%elem_of_nil.
  - intros Hin. destruct (decide (m = n)) as [->|Hne]; [done|].
    apply elem_of_cons in Hin as [->|Hin]; [done|].
    by rewrite IH.
Qed.

Lemma first_index_app_absent (n : string) (l k : list string) :
  n ∉ l → first_index n (l ++ k) = (length l + first_index n k)%nat.
Proof.
  induction l as [|m l IH]; simpl; [done|].
  intros [Hne Hin]%not_elem_of_cons.
  rewrite decide_False by done. by rewrite IH.
Qed.

(** ** The collector's dictionary *)

Lemma dedupe_snoc (rs : list Place) (r : Place) :
  ResearchAgent.dedupe (rs ++ [r])
  = PyDict.set (name r) r (ResearchAgent.dedupe rs).
Proof. unfold ResearchAgent.dedupe. by rewrite foldl_snoc. Qed.

Lemma dedupe_NoDup (rs : list Place) :
  NoDup (PyDict.keys (ResearchAgent.dedupe rs)).
Proof.
  induction rs as [|r rs IH] using rev_ind; [constructor|].
  rewrite dedupe_snoc. by apply dict_keys_set_NoDup.
Qed.

Lemma dedupe_keys_elem_of (rs : list Place) (n : string) :
  n ∈ PyDict.keys (ResearchAgent.dedupe rs) ↔ n ∈ name <$> rs.
Proof.
  induction rs as [|r rs IH] using rev_ind; [done|].
  rewrite dedupe_snoc, fmap_app, elem_of_app. simpl.
  rewrite list_elem_of_singleton, <- IH.
  destruct (decide (name r ∈ PyDict.keys (ResearchAgent.dedupe rs)))
    as [Hin|Hin].
  - rewrite dict_keys_set_in by done.
    split; [by left | by intros [?| ->]].
  - by rewrite dict_keys_set_fresh, elem_of_app, list_elem_of_singleton.
Qed.

(** A stored record is the last hit of its name. *)
Lemma dedupe_get_last (rs : list Place) (n : string) (v : Place) :
  PyDict.get n (ResearchAgent.dedupe rs) = Some v →
  ∃ l1 l2, rs = l1 ++ v :: l2 ∧ name v = n ∧ n ∉ name <$> l2.
Proof.
  revert v. induction rs as [|r rs IH] using rev_ind; intros v; [done|].
  rewrite dedupe_snoc.
  destruct (decide (name r = n)) as [<-|Hne].
  - rewrite dict_get_set_eq. intros [= <-].
    exists rs, []. split_and!; [done..|apply not_elem_of_nil].
  - rewrite dict_get_set_ne by done. intros (l1 & l2 & -> & Hn & Hl2)%IH.
    exists l1, (l2 ++ [r]). split_and!; [by rewrite <- app_assoc|done|].
    rewrite fmap_app, elem_of_app. simpl. rewrite list_elem_of_singleton.
    intros [?|?]; done.
Qed.

Lemma dedupe_elem_of_name (rs : list Place) (n : string) (v : Place) :
  (n, v) ∈ ResearchAgent.dedupe rs → name v = n.
Proof.
  intros Hin. apply dict_get_elem_of in Hin; [|apply dedupe_NoDup].
  by apply dedupe_get_last in Hin as (? & ? & _ & ? & _).
Qed.

Lemma dedupe_values_names (rs : list Place) :
  name <$> PyDict.values (ResearchAgent.dedupe rs)
  = PyDict.keys (ResearchAgent.dedupe rs).
Proof.
  unfold PyDict.values, PyDict.keys. rewrite <- list_fmap_compose.
  apply Forall_fmap_ext, Forall_forall. intros [n v] Hin. simpl.
  by apply (dedupe_elem_of_name rs).
Qed.

(** The keys are in the order in which the names first occur. *)
Lemma dedupe_keys_order (rs : list Place) (n m : string) :
  [n; m] `sublist_of` PyDict.keys (ResearchAgent.dedupe rs) →
  (first_index n (name <$> rs) < first_index m (name <$> rs))%nat.
Proof.
  induction rs as [|r rs IH] using rev_ind.
  - intros Hs. apply sublist_nil_r in Hs. done.
  - rewrite dedupe_snoc, fmap_app. simpl.
    destruct (decide (name r ∈ PyDict.keys (ResearchAgent.dedupe rs)))
      as [Hin|Hin].
    + rewrite dict_keys_set_in by done. intros Hs.
      assert (n ∈ name <$> rs ∧ m ∈ name <$> rs) as [Hn Hm].
      { rewrite <- !dedupe_keys_elem_of.
        split; eapply elem_of_sublist; [|exact Hs| |exact Hs];
          repeat constructor. }
      rewrite !first_index_app by done. auto.
    + rewrite dict_keys_set_fresh by done.
      intros (l1 & l2 & Hl & Hl1 & Hl2)%sublist_app_r.
      apply sublist_cons_r in Hl2 as [Hl2|(l' & -> & Hl')].
      * apply sublist_nil_r in Hl2 as ->. rewrite app_nil_r in Hl. subst l1.
        assert (n ∈ name <$> rs ∧ m ∈ name <$> rs) as [Hn Hm].
        { rewrite <- !dedupe_keys_elem_of.
          split; eapply elem_of_sublist; [|exact Hl1| |exact Hl1];
            repeat constructor. }
        rewrite !first_index_app by done. auto.
      * apply sublist_nil_r in Hl' as ->.
        destruct l1 as [|a [|b l1]]; simpl in Hl.
        { discriminate Hl. }
        2:{ injection Hl as _ _ Hl. by destruct l1. }
        injection Hl as <- ->.
        assert (n ∈ name <$> rs) as Hn.
        { rewrite <- dedupe_keys_elem_of. by apply singleton_sublist_l. }
        rewrite first_index_app by done.
        rewrite first_index_app_absent
          by (by rewrite <- dedupe_keys_elem_of).
        pose proof (first_index_lt _ _ Hn). lia.
Qed.

(** ** Sorting *)

(** ** [list.sort] permutes *)

Section sort_perm.
Context {A : Type} (lt : A → A → bool).
Implicit Types (x y : A) (l : list A).

Lemma binary_insert_perm pre x :
  ListSort.binary_insert lt pre x ≡ₚ x :: pre.
Proof.
  unfold ListSort.binary_insert. cbv zeta.
  rewrite <- Permutation_middle. by rewrite take_drop.
Qed.

Lemma binarysort_perm run rest :
  ListSort.binarysort lt run rest ≡ₚ run ++ rest.
Proof.
  unfold ListSort.binarysort. revert run.
  induction rest as [|x rest IH]; intros run; simpl.
  - by rewrite app_nil_r.
  - rewrite IH, binary_insert_perm. by rewrite <- Permutation_middle.
Qed.

Lemma sort_perm l : ListSort.sort lt l ≡ₚ l.
Proof.
  unfold ListSort.sort. destruct (ListSort.count_run lt l) as [n descending].
  rewrite binarysort_perm.
  transitivity (take n l ++ drop n l); [|by rewrite take_drop].
  apply Permutation_app_tail.
  destruct descending; [|done]. symmetry. apply Permutation_rev.
Qed.
End sort_perm.

Lemma sorted_perm {A} (key : A → number) (reverse : bool) (l : list A) :
  sorted key reverse l ≡ₚ l.
Proof.
  unfold sorted. destruct reverse.
  - rewrite <- Permutation_rev, sort_perm. symmetry. apply Permutation_rev.
  - apply sort_perm.
Qed.

(** ** [list.sort] on keys that are ordered *)

Section sort_ordered.
Context {A : Type} (q : A → Q).
Local Open Scope nat_scope.
Implicit Types (x y pivot : A) (pre run rest : list A).

Lemma qlt_true x y : qlt q x y = true ↔ (q x < q y)%Q.
Proof.
  unfold qlt. rewrite negb_true_iff. split.
  - intros H. apply Qnot_le_lt. intros Hle. apply Qle_bool_iff in Hle.
    congruence.
  - intros H. destruct (Qle_bool (q y) (q x)) eqn:E; [|done].
    apply Qle_bool_iff in E. by apply Qlt_not_le in H.
Qed.

Lemma qlt_false x y : qlt q x y = false ↔ (q y <= q x)%Q.
Proof.
  unfold qlt. rewrite negb_false_iff. apply Qle_bool_iff.
Qed.

Lemma bisect_spec pivot pre (fuel l r : nat) :
  StronglySorted (asc q) pre →
  l < r → r ≤ length pre → r - l ≤ fuel →
  Forall (λ e, asc q e pivot) (take l pre) →
  Forall (λ e, (q pivot < q e)%Q) (drop r pre) →
  let i := ListSort.bisect (qlt q) pivot pre l r fuel in
  i ≤ length pre
  ∧ Forall (λ e, asc q e pivot) (take i pre)
  ∧ Forall (λ e, (q pivot < q e)%Q) (drop i pre).
Proof.
  intros Hsorted. revert l r.
  induction fuel as [|fuel IH]; intros l r Hlr Hr Hfuel Hlow Hhigh; [lia|].
  cbn [ListSort.bisect]. cbv zeta.
  set (p := l + (r - l) / 2).
  assert (l ≤ p < r) as Hp.
  { unfold p. assert ((r - l) / 2 < r - l); [|lia].
    apply Nat.div_lt; lia. }
  clearbody p.
  destruct (lookup_lt_is_Some_2 pre p) as [e He]; [lia|].
  rewrite He. simpl.
  pose proof (take_drop_middle pre p e He) as Hsplit.
  rewrite <- Hsplit in Hsorted.
  apply StronglySorted_app in Hsorted as (Hcross & _ & Htail).
  apply StronglySorted_cons in Htail as [Htail _].
  destruct (qlt q pivot e) eqn:Hlt.
  - (* the pivot is below [pre[p]]: go left *)
    apply qlt_true in Hlt.
    assert (Forall (λ e', (q pivot < q e')%Q) (drop p pre)) as Hhigh'.
    { rewrite (drop_S _ _ _ He). constructor; [done|].
      eapply Forall_impl; [exact Htail|]. unfold asc. simpl. intros z Hz.
      by eapply Qlt_le_trans. }
    destruct (l <? p) eqn:Hcont.
    + apply Nat.ltb_lt in Hcont. apply IH; [done|lia|lia|done|done].
    + apply Nat.ltb_ge in Hcont. assert (p = l) as -> by lia.
      split_and!; [lia|done|done].
  - (* the pivot is not below [pre[p]]: go right *)
    apply qlt_false in Hlt.
    assert (Forall (λ e', asc q e' pivot) (take (S p) pre)) as Hlow'.
    { rewrite (take_S_r _ _ _ He). apply Forall_app. split; [|by constructor].
      apply Forall_forall. intros z Hz. unfold asc.
      eapply Qle_trans; [|exact Hlt].
      apply (Hcross z e); [done|]. apply elem_of_cons. by left. }
    destruct (S p <? r) eqn:Hcont.
    + apply Nat.ltb_lt in Hcont. apply IH; [done|lia|lia|done|done].
    + apply Nat.ltb_ge in Hcont. assert (S p = r) as Hpr by lia.
      split_and!; [lia|done|by rewrite Hpr].
Qed.

Lemma binary_insert_split pre pivot :
  StronglySorted (asc q) pre →
  ∃ i, ListSort.binary_insert (qlt q) pre pivot
       = take i pre ++ pivot :: drop i pre
       ∧ Forall (λ e, asc q e pivot) (take i pre)
       ∧ Forall (λ e, (q pivot < q e)%Q) (drop i pre).
Proof.
  intros Hsorted. unfold ListSort.binary_insert. cbv zeta.
  eexists. split; [reflexivity|].
  destruct pre as [|a pre]; [by split|].
  apply bisect_spec; [done|simpl; lia|done|lia|constructor|].
  rewrite drop_all. constructor.
Qed.

Lemma binary_insert_sorted pre pivot :
  StronglySorted (asc q) pre →
  StronglySorted (asc q) (ListSort.binary_insert (qlt q) pre pivot).
Proof.
  intros Hsorted.
  destruct (binary_insert_split pre pivot Hsorted) as (i & -> & Hlow & Hhigh).
  rewrite <- (take_drop i pre) in Hsorted.
  apply StronglySorted_app in Hsorted as (Hcross & Hl & Hr).
  apply StronglySorted_app_2; [|done|].
  - intros x1 x2 H1 [->|H2]%elem_of_cons.
    + by eapply Forall_forall in Hlow.
    + by apply Hcross.
  - constructor; [done|]. eapply Forall_impl; [exact Hhigh|].
    intros z Hz. by apply Qlt_le_weak.
Qed.

Lemma binary_insert_filter (r : Q) pre pivot :
  StronglySorted (asc q) pre →
  filter (same_q q r) (ListSort.binary_insert (qlt q) pre pivot)
  = filter (same_q q r) (pre ++ [pivot]).
Proof.
  intros Hsorted.
  destruct (binary_insert_split pre pivot Hsorted) as (i & -> & Hlow & Hhigh).
  rewrite <- (take_drop i pre) at 3.
  rewrite !filter_app, !filter_cons, filter_nil.
  destruct (decide (same_q q r pivot)) as [Hp|Hp].
  - assert (filter (same_q q r) (drop i pre) = []) as ->;
      [|by rewrite !app_nil_r].
    induction Hhigh as [|z l Hz _ IH]; [done|].
    rewrite filter_cons, decide_False; [done|].
    unfold same_q in *. intros Hz'. apply Qeq_bool_iff in Hp, Hz'.
    rewrite Hp, Hz' in Hz. by apply Qlt_irrefl in Hz.
  - by rewrite !app_nil_r.
Qed.

Lemma binarysort_sorted run rest :
  StronglySorted (asc q) run →
  StronglySorted (asc q) (ListSort.binarysort (qlt q) run rest).
Proof.
  unfold ListSort.binarysort. revert run.
  induction rest as [|x rest IH]; intros run Hrun; [done|].
  simpl. by apply IH, binary_insert_sorted.
Qed.

Lemma binarysort_filter (r : Q) run rest :
  StronglySorted (asc q) run →
  filter (same_q q r) (ListSort.binarysort (qlt q) run rest)
  = filter (same_q q r) (run ++ rest).
Proof.
  unfold ListSort.binarysort. revert run.
  induction rest as [|x rest IH]; intros run Hrun; simpl.
  - by rewrite app_nil_r.
  - rewrite IH by by apply binary_insert_sorted.
    rewrite filter_app, binary_insert_filter, <- filter_app by done.
    by rewrite <- app_assoc.
Qed.

(** A run that never descends is sorted as it stands. *)
Lemma run_ascending_sorted x (l : list A) :
  StronglySorted (asc q)
    (x :: take (ListSort.run_ascending (qlt q) x l) l).
Proof.
  apply Sorted_StronglySorted.
  { intros a b c. unfold asc. apply Qle_trans. }
  revert x. induction l as [|y l IH]; intros x; simpl.
  - by repeat constructor.
  - destruct (qlt q y x) eqn:Hlt; simpl.
    + by repeat constructor.
    + constructor; [apply IH|]. constructor. by apply qlt_false.
Qed.

(** A descending run descends strictly. *)
Lemma run_descending_sorted x (l : list A) :
  StronglySorted (λ a b, (q b < q a)%Q)
    (x :: take (ListSort.run_descending (qlt q) x l) l).
Proof.
  apply Sorted_StronglySorted.
  { intros a b c Hab Hbc. by eapply Qlt_trans. }
  revert x. induction l as [|y l IH]; intros x; simpl.
  - by repeat constructor.
  - destruct (qlt q y x) eqn:Hlt; simpl.
    + constructor; [apply IH|]. constructor. by apply qlt_true.
    + by repeat constructor.
Qed.

Lemma StronglySorted_rev (R : relation A) (l : list A) :
  StronglySorted R l → StronglySorted (flip R) (rev l).
Proof.
  induction 1 as [|x l Hl IH Hx]; simpl; [constructor|].
  apply StronglySorted_app_2; [|done|by repeat constructor].
  intros x1 x2 H1 ->%list_elem_of_singleton. unfold flip.
  apply list_elem_of_In, in_rev, list_elem_of_In in H1.
  by eapply Forall_forall in Hx.
Qed.

Lemma StronglySorted_mono (R1 R2 : relation A) (l : list A) :
  (∀ x y, R1 x y → R2 x y) → StronglySorted R1 l → StronglySorted R2 l.
Proof.
  intros HR. induction 1 as [|x l Hl IH Hx]; constructor; [done|].
  eapply Forall_impl; [exact Hx|]. apply HR.
Qed.

Lemma filter_rev (P : A → Prop) `{!∀ x, Decision (P x)} (l : list A) :
  filter P (rev l) = rev (filter P l).
Proof.
  induction l as [|x l IH]; [done|]. simpl.
  rewrite filter_app, IH, !filter_cons, filter_nil.
  by destruct (decide (P x)); simpl; rewrite ?app_nil_r.
Qed.

(** Keys that descend strictly are all different: at most one is [r]. *)
Lemma strictly_descending_filter (r : Q) (l : list A) :
  StronglySorted (λ a b, (q b < q a)%Q) l →
  length (filter (same_q q r) l) ≤ 1.
Proof.
  induction 1 as [|x l Hl IH Hx]; [simpl; lia|].
  rewrite filter_cons. destruct (decide (same_q q r x)) as [Hr|Hr]; [|done].
  assert (filter (same_q q r) l = []) as ->; [|simpl; lia].
  clear IH Hl. induction Hx as [|z l Hz _ IH]; [done|].
  rewrite filter_cons, decide_False; [done|].
  unfold same_q in *. intros Hz'. apply Qeq_bool_iff in Hr, Hz'.
  rewrite Hr, Hz' in Hz. by apply Qlt_irrefl in Hz.
Qed.

Lemma count_run_sorted (l : list A) :
  let '(n, descending) := ListSort.count_run (qlt q) l in
  let run := if descending then rev (take n l) else take n l in
  StronglySorted (asc q) run
  ∧ ∀ r, filter (same_q q r) run = filter (same_q q r) (take n l).
Proof.
  destruct l as [|a [|b l]]; simpl.
  - split; [constructor|done].
  - split; [by repeat constructor|done].
  - destruct (qlt q b a) eqn:Hlt.
    + pose proof (run_descending_sorted a (b :: l)) as Hrun.
      simpl in Hrun. rewrite Hlt in Hrun. split.
      * apply StronglySorted_rev in Hrun. simpl in Hrun.
        eapply StronglySorted_mono; [|exact Hrun].
        intros x y. unfold flip, asc. apply Qlt_le_weak.
      * intros r. pose proof (strictly_descending_filter r _ Hrun) as Hlen.
        set (n := ListSort.run_descending (qlt q) b l) in *.
        change (a :: take (S n) (b :: l))
          with (take (S (S n)) (a :: b :: l)) in Hlen.
        rewrite filter_rev.
        destruct (filter (same_q q r) (take (S (S n)) (a :: b :: l)))
          as [|z [|z' k]]; simpl in *; [done|done|lia].
    + pose proof (run_ascending_sorted a (b :: l)) as Hrun.
      simpl in Hrun. rewrite Hlt in Hrun. by split.
Qed.

Lemma sort_sorted (l : list A) :
  StronglySorted (asc q) (ListSort.sort (qlt q) l).
Proof.
  unfold ListSort.sort. pose proof (count_run_sorted l) as Hrun.
  destruct (ListSort.count_run (qlt q) l) as [n descending].
  apply binarysort_sorted, Hrun.
Qed.

(** The sort is stable: the elements of one key keep their order. *)
Lemma sort_filter (r : Q) (l : list A) :
  filter (same_q q r) (ListSort.sort (qlt q) l) = filter (same_q q r) l.
Proof.
  unfold ListSort.sort. pose proof (count_run_sorted l) as Hrun.
  destruct (ListSort.count_run (qlt q) l) as [n descending].
  destruct Hrun as [Hsorted Hfilter].
  rewrite binarysort_filter, filter_app, Hfilter, <- filter_app by done.
  by rewrite take_drop.
Qed.
End sort_ordered.

(** ** The sort asks [<] about the elements of the list only *)

Section sort_ext.
Context {A : Type} (lt1 lt2 : A → A → bool).
Local Open Scope nat_scope.
Implicit Types (x y pivot : A) (pre run rest : list A).

Lemma run_ascending_ext x (l : list A) :
  (∀ a b, a ∈ x :: l → b ∈ x :: l → lt1 a b = lt2 a b) →
  ListSort.run_ascending lt1 x l = ListSort.run_ascending lt2 x l.
Proof.
  revert x. induction l as [|y l IH]; intros x Hext; [done|]. simpl.
  rewrite (Hext y x) by (rewrite !elem_of_cons; auto).
  destruct (lt2 y x); [done|]. f_equal. apply IH.
  intros a b Ha Hb. apply Hext; apply elem_of_cons; by right.
Qed.

Lemma run_descending_ext x (l : list A) :
  (∀ a b, a ∈ x :: l → b ∈ x :: l → lt1 a b = lt2 a b) →
  ListSort.run_descending lt1 x l = ListSort.run_descending lt2 x l.
Proof.
  revert x. induction l as [|y l IH]; intros x Hext; [done|]. simpl.
  rewrite (Hext y x) by (rewrite !elem_of_cons; auto).
  destruct (lt2 y x); [|done]. f_equal. apply IH.
  intros a b Ha Hb. apply Hext; apply elem_of_cons; by right.
Qed.

Lemma count_run_ext (l : list A) :
  (∀ a b, a ∈ l → b ∈ l → lt1 a b = lt2 a b) →
  ListSort.count_run lt1 l = ListSort.count_run lt2 l.
Proof.
  intros Hext. destruct l as [|a [|b l]]; [done..|].
  unfold ListSort.count_run.
  rewrite (Hext b a) by (rewrite !elem_of_cons; auto).
  by rewrite run_ascending_ext, run_descending_ext.
Qed.

Lemma bisect_ext pivot pre (l r fuel : nat) :
  (∀ e, e ∈ pre → lt1 pivot e = lt2 pivot e) →
  ListSort.bisect lt1 pivot pre l r fuel
  = ListSort.bisect lt2 pivot pre l r fuel.
Proof.
  intros Hext. revert l r. induction fuel as [|fuel IH]; intros l r; [done|].
  cbn [ListSort.bisect]. cbv zeta.
  destruct (pre !! (l + (r - l) / 2)) as [e|] eqn:He; simpl.
  - rewrite (Hext e) by by eapply list_elem_of_lookup_2.
    destruct (lt2 pivot e); by rewrite IH.
  - by rewrite IH.
Qed.

Lemma binary_insert_ext pre pivot :
  (∀ e, e ∈ pre → lt1 pivot e = lt2 pivot e) →
  ListSort.binary_insert lt1 pre pivot = ListSort.binary_insert lt2 pre pivot.
Proof.
  intros Hext. unfold ListSort.binary_insert. by rewrite bisect_ext.
Qed.

Lemma binarysort_ext run rest :
  (∀ a b, a ∈ run ++ rest → b ∈ run ++ rest → lt1 a b = lt2 a b) →
  ListSort.binarysort lt1 run rest = ListSort.binarysort lt2 run rest.
Proof.
  unfold ListSort.binarysort. revert run.
  induction rest as [|x rest IH]; intros run Hext; [done|]. simpl.
  rewrite binary_insert_ext.
  - apply IH. intros a b Ha Hb.
    apply Hext; rewrite elem_of_app, elem_of_cons.
    + apply elem_of_app in Ha as [Ha|Ha]; [|auto].
      rewrite binary_insert_perm, elem_of_cons in Ha.
      destruct Ha as [->|Ha]; auto.
    + apply elem_of_app in Hb as [Hb|Hb]; [|auto].
      rewrite binary_insert_perm, elem_of_cons in Hb.
      destruct Hb as [->|Hb]; auto.
  - intros e He. apply Hext; rewrite elem_of_app, elem_of_cons; auto.
Qed.

Lemma sort_ext (l : list A) :
  (∀ a b, a ∈ l → b ∈ l → lt1 a b = lt2 a b) →
  ListSort.sort lt1 l = ListSort.sort lt2 l.
Proof.
  intros Hext. unfold ListSort.sort. rewrite count_run_ext by done.
  destruct (ListSort.count_run lt2 l) as [n descending].
  apply binarysort_ext. intros a b Ha Hb.
  assert (∀ c, c ∈ (if descending then rev (take n l) else take n l)
                     ++ drop n l → c ∈ l) as Hin.
  { intros c Hc. rewrite <- (take_drop n l).
    apply elem_of_app in Hc as [Hc|Hc]; apply elem_of_app; [left|by right].
    destruct descending; [|done].
    by apply list_elem_of_In, in_rev, list_elem_of_In in Hc. }
  apply Hext; by apply Hin.
Qed.
End sort_ext.

(** ** The order of the ratings that are not NaN *)

Lemma squash_den (q : Q) :
  Z.pos (Qden (squash q)) = (Z.pos (Qden q) + Z.abs (Qnum q))%Z.
Proof. unfold squash. cbn [Qden Qnum]. rewrite Z2Pos.id; [reflexivity|]. pose proof (Pos2Z.is_pos (Qden q)). lia. Qed.

Lemma squash_cross (n1 n2 d1 d2 : Z) :
  (0 < d1 → 0 < d2 →
   (n1 * (d2 + Z.abs n2) < n2 * (d1 + Z.abs n1) ↔ n1 * d2 < n2 * d1)
   ∧ (n1 * (d2 + Z.abs n2) <= n2 * (d1 + Z.abs n1) ↔ n1 * d2 <= n2 * d1))%Z.
Proof.
  intros Hd1 Hd2.
  destruct (Z.abs_spec n1) as [[H1 ->]|[H1 ->]],
    (Z.abs_spec n2) as [[H2 ->]|[H2 ->]].
  - split; split; nia.
  - pose proof (Z.mul_nonneg_nonneg _ _ H1 (Z.lt_le_incl _ _ Hd2)).
    assert (n2 * d1 < 0)%Z by nia. assert (n1 * n2 <= 0)%Z by nia.
    split; split; nia.
  - pose proof (Z.mul_nonneg_nonneg _ _ H2 (Z.lt_le_incl _ _ Hd1)).
    assert (n1 * d2 < 0)%Z by nia. assert (n1 * n2 <= 0)%Z by nia.
    split; split; nia.
  - split; split; nia.
Qed.

Lemma squash_lt (x y : Q) : (squash x < squash y)%Q ↔ (x < y)%Q.
Proof.
  unfold Qlt. rewrite !squash_den. cbn [squash Qnum].
  apply squash_cross; apply Pos2Z.is_pos.
Qed.

Lemma squash_le (x y : Q) : (squash x <= squash y)%Q ↔ (x <= y)%Q.
Proof.
  unfold Qle. rewrite !squash_den. cbn [squash Qnum].
  apply squash_cross; apply Pos2Z.is_pos.
Qed.

Lemma squash_eq (x y : Q) : (squash x == squash y)%Q ↔ (x == y)%Q.
Proof.
  split; intros H; apply Qle_antisym; apply Qeq_sym in H as H';
    (apply squash_le || apply <- squash_le);
    try (rewrite H; apply Qle_refl); rewrite H'; apply Qle_refl.
Qed.

Lemma squash_bound (x : Q) : (-1 < squash x ∧ squash x < 1)%Q.
Proof.
  unfold Qlt. rewrite !squash_den. cbn [squash Qnum Qden].
  pose proof (Pos2Z.is_pos (Qden x)). lia.
Qed.

Lemma number_lt_value_of (a b : number) :
  is_nan a = false → is_nan b = false →
  number_lt a b = negb (Qle_bool (value_of b) (value_of a)).
Proof.
  intros Ha Hb.
  destruct a as [x| | |], b as [y| | |]; try done; simpl.
  - f_equal. apply eq_true_iff_eq. rewrite !Qle_bool_iff. symmetry. apply squash_le.
  - symmetry. apply negb_true_iff, not_true_iff_false.
    rewrite Qle_bool_iff. apply Qlt_not_le, squash_bound.
  - symmetry. apply negb_false_iff, Qle_bool_iff, Qlt_le_weak, squash_bound.
  - symmetry. apply negb_false_iff, Qle_bool_iff, Qlt_le_weak, squash_bound.
  - symmetry. apply negb_true_iff, not_true_iff_false.
    rewrite Qle_bool_iff. apply Qlt_not_le, squash_bound.
Qed.

Lemma number_le_value_of (a b : number) :
  is_nan a = false → is_nan b = false →
  number_le a b ↔ (value_of a <= value_of b)%Q.
Proof.
  intros Ha Hb.
  destruct a as [x| | |], b as [y| | |]; try done; simpl.
  - symmetry. apply squash_le.
  - split; [intros _|done]. apply Qlt_le_weak, squash_bound.
  - split; [done|]. apply Qlt_not_le, squash_bound.
  - split; [done|]. apply Qlt_not_le, squash_bound.
  - split; [intros _|done]. apply Qlt_le_weak, squash_bound.
Qed.

Lemma number_eq_value_of (a b : number) :
  number_eq a b → (value_of a == value_of b)%Q.
Proof.
  destruct a as [x| | |], b as [y| | |]; try done; simpl.
  apply squash_eq.
Qed.

(** ** [sorted] on ratings that are not NaN *)

Section sorted_numbers.
Context {A : Type} (key : A → number).
Implicit Types (x y : A) (l : list A).

Lemma number_lt_value x y :
  is_nan (key x) = false → is_nan (key y) = false →
  number_lt (key x) (key y) = qlt (value_of ∘ key) x y.
Proof. apply number_lt_value_of. Qed.

Lemma sort_ordered l :
  ordered key l →
  ListSort.sort (λ x y, number_lt (key x) (key y)) l
  = ListSort.sort (qlt (value_of ∘ key)) l.
Proof.
  intros Hl. apply sort_ext. intros a b Ha Hb.
  unfold ordered in Hl. rewrite Forall_forall in Hl.
  apply number_lt_value; by apply Hl.
Qed.

Lemma ordered_rev l : ordered key l → ordered key (rev l).
Proof.
  unfold ordered. rewrite !Forall_forall. intros Hl x Hx. apply Hl.
  by apply list_elem_of_In, in_rev, list_elem_of_In in Hx.
Qed.

Lemma sorted_reverse_ordered l :
  ordered key l →
  sorted key true l = rev (ListSort.sort (qlt (value_of ∘ key)) (rev l)).
Proof.
  intros Hl. unfold sorted. by rewrite sort_ordered by by apply ordered_rev.
Qed.

(** With [reverse] the keys come out in descending order. *)
Lemma sorted_reverse_sorted l :
  ordered key l → StronglySorted (desc key) (sorted key true l).
Proof.
  intros Hl.
  assert (ordered key (sorted key true l)) as Hout.
  { unfold ordered. by rewrite sorted_perm. }
  rewrite sorted_reverse_ordered in * by done.
  pose proof (sort_sorted (value_of ∘ key) (rev l)) as Hsorted.
  apply StronglySorted_rev in Hsorted.
  revert Hout Hsorted.
  generalize (rev (ListSort.sort (qlt (value_of ∘ key)) (rev l))).
  intros k Hout. induction 1 as [|x k Hk IH Hx]; [constructor|].
  apply Forall_cons in Hout as [Hnx Hout].
  constructor; [by apply IH|].
  apply Forall_forall. intros y Hy.
  rewrite Forall_forall in Hx, Hout.
  specialize (Hx y Hy). specialize (Hout y Hy).
  unfold flip, asc, desc in *. simpl in Hx.
  by apply number_le_value_of.
Qed.

(** And the elements of one key keep the order they had. *)
Lemma sorted_reverse_filter (r : Q) l :
  ordered key l →
  filter (same_q (value_of ∘ key) r) (sorted key true l)
  = filter (same_q (value_of ∘ key) r) l.
Proof.
  intros Hl. rewrite sorted_reverse_ordered by done.
  by rewrite filter_rev, sort_filter, filter_rev, rev_involutive.
Qed.
End sorted_numbers.

Lemma sublist_filter_mono {A} (P : A → Prop) `{!∀ x, Decision (P x)}
    (l1 l2 : list A) :
  l1 `sublist_of` l2 → filter P l1 `sublist_of` filter P l2.
Proof.
  induction 1 as [|x l1 l2 Hs IH|x l1 l2 Hs IH]; [done|..];
    rewrite !filter_cons; destruct (decide (P x));
    auto using sublist_skip, sublist_cons.
Qed.

Lemma sorted_reverse_stable {A} (key : A → number) (x y : A) (l : list A) :
  ordered key l → number_eq (key x) (key y) →
  [x; y] `sublist_of` sorted key true l → [x; y] `sublist_of` l.
Proof.
  intros Hl Hxy Hs.
  apply (sublist_filter_mono
           (same_q (value_of ∘ key) (value_of (key y)))) in Hs.
  rewrite sorted_reverse_filter in Hs by done.
  rewrite !filter_cons, filter_nil in Hs.
  rewrite !decide_True in Hs.
  - etrans; [exact Hs | apply sublist_filter].
  - unfold same_q. apply Qeq_bool_iff. reflexivity.
  - unfold same_q. simpl. apply Qeq_bool_iff.
    by apply number_eq_value_of.
Qed.

Lemma lookup_lt_sublist {A} (l : list A) (i j : nat) (x y : A) :
  (i < j)%nat → l !! i = Some x → l !! j = Some y → [x; y] `sublist_of` l.
Proof.
  intros Hij Hi Hj.
  rewrite <- (take_drop_middle l i x Hi).
  apply sublist_inserts_l, sublist_skip, singleton_sublist_l.
  apply list_elem_of_lookup. exists (j - S i)%nat.
  rewrite lookup_drop. rewrite <- Hj. f_equal. lia.
Qed.

Lemma run_names (tool : string → Z → list Place) dest interests k :
  name <$> ResearchAgent.run tool dest interests k
  = take 20 (name <$> sorted rating true (PyDict.values
      (ResearchAgent.dedupe (ResearchAgent.collect tool dest interests k)))).
Proof.
  unfold ResearchAgent.run. cbv zeta.
  rewrite <- list_fmap_compose, fmap_take. done.
Qed.

Lemma dedupe_size (rs : list Place) :
  length (ResearchAgent.dedupe rs)
  = size (list_to_set (name <$> rs) : gset string).
Proof.
  transitivity (length (PyDict.keys (ResearchAgent.dedupe rs))).
  { unfold PyDict.keys. by rewrite length_fmap. }
  rewrite <- (size_list_to_set (C:=gset string)) by apply dedupe_NoDup.
  f_equal. apply set_eq. intros n.
  rewrite !elem_of_list_to_set. apply dedupe_keys_elem_of.
Qed.

(** C2 (amended). The output names are distinct, every output record is the
    projection of the last hit of its name, and every name is there when the
    hits have at most 20 distinct names. *)
Theorem run_dedupe (tool : string → Z → list Place) dest interests k :
  let results := ResearchAgent.collect tool dest interests k in
  let out := ResearchAgent.run tool dest interests k in
  NoDup (name <$> out)
  ∧ (∀ p, p ∈ out →
       ∃ l1 r l2,
         results = l1 ++ r :: l2 ∧ (name r ∉ name <$> l2) ∧ p = compact r)
  ∧ ((size (list_to_set (name <$> results) : gset string) ≤ 20)%nat →
     ∀ r, r ∈ results → name r ∈ name <$> out).
Proof.
  intros results out.
  set (unique := ResearchAgent.dedupe results).
  set (ranked := sorted rating true (PyDict.values unique)).
  assert (name <$> ranked ≡ₚ PyDict.keys unique) as Hperm.
  { unfold ranked, unique.
    by rewrite sorted_perm, dedupe_values_names. }
  split_and!.
  - unfold out. rewrite run_names. fold results unique ranked.
    eapply sublist_NoDup; [|apply sublist_take].
    rewrite Hperm. apply dedupe_NoDup.
  - intros p Hp. unfold out, ResearchAgent.run in Hp. cbv zeta in Hp.
    fold results unique ranked in Hp.
    apply list_elem_of_fmap in Hp as (v & -> & Hv).
    apply (elem_of_sublist _ ranked) in Hv; [|apply sublist_take].
    unfold ranked in Hv. rewrite sorted_perm in Hv.
    apply list_elem_of_fmap in Hv as ([n v'] & -> & Hv). simpl.
    apply dict_get_elem_of in Hv; [|apply dedupe_NoDup].
    apply dedupe_get_last in Hv as (l1 & l2 & Hres & Hn & Hl2).
    exists l1, v', l2. by rewrite Hn.
  - intros Hsize r Hr. unfold out. rewrite run_names.
    fold results unique ranked.
    rewrite take_ge.
    + rewrite Hperm. apply dedupe_keys_elem_of.
      apply list_elem_of_fmap. by exists r.
    + rewrite Hperm. unfold PyDict.keys. rewrite length_fmap.
      unfold unique. rewrite dedupe_size. done.
Qed.

Lemma run_dedupe_witness :
  name (mkPlace "Art Gallery" "Contemporary art" (Num (44 # 10))
          (407614 # 10000) (-739776 # 10000) "10:00-18:00" [])
  ∈ name <$> ResearchAgent.run search_tool_stub "New York"
               ["museums"; "parks"; "markets"] 5.
Proof.
  apply (proj2 (proj2 (run_dedupe search_tool_stub "New York"
                         ["museums"; "parks"; "markets"] 5))).
  - vm_compute. lia.
  - vm_compute. do 3 right. left.
Defined.

(** C2, as stated, fails on a lookup capability with more than 20 names: the
    25th hit is among the results and its name is not in the output. *)
Lemma run_drops_names :
  let interests := ["1"; "2"; "3"; "4"; "5"] in
  mkPlace "Goa top 5e" "" (Num 4) 0 0 "" []
    ∈ ResearchAgent.collect numbered_tool "Goa" interests 5
  ∧ "Goa top 5e" ∉ name <$> ResearchAgent.run numbered_tool "Goa" interests 5.
Proof.
  split.
  - apply list_elem_of_In. vm_compute. do 24 right. left. reflexivity.
  - intros Hin. apply list_elem_of_In in Hin. vm_compute in Hin.
    repeat (destruct Hin as [Hin|Hin]; [discriminate Hin|]). exact Hin.
Qed.

(** C3 fails on a rating that is no number.  [<] is false on both sides of
    a NaN: the sort leaves hits rated 1, NaN, 2 as they are, and the output is
    not in descending order of rating. *)
Lemma run_nan_not_descending :
  rating <$> ResearchAgent.run nan_tool "Goa" ["beaches"] 5
  = [Num 1; NaN; Num 2]
  ∧ ¬ StronglySorted (λ p q, number_le (rating q) (rating p))
        (ResearchAgent.run nan_tool "Goa" ["beaches"] 5).
Proof.
  split; [reflexivity|].
  assert (ResearchAgent.run nan_tool "Goa" ["beaches"] 5
          = [ mkPlace "A" "" (Num 1) 0 0 "" [];
              mkPlace "B" "" NaN 0 0 "" [];
              mkPlace "C" "" (Num 2) 0 0 "" [] ]) as -> by reflexivity.
  intros Hsorted. apply StronglySorted_cons in Hsorted as [Hfirst _].
  apply Forall_cons in Hfirst as [Hnan _]. exact Hnan.
Qed.

(** C3 (amended). When none of the records kept for their names has a NaN
    rating, the output is in descending order of rating, and two output places
    of equal rating stand in the order in which their names first occur among
    the hits. *)
Theorem run_sorted_stable (tool : string → Z → list Place) dest interests k :
  let results := ResearchAgent.collect tool dest interests k in
  let out := ResearchAgent.run tool dest interests k in
  ordered rating (PyDict.values (ResearchAgent.dedupe results)) →
  StronglySorted (λ p q, number_le (rating q) (rating p)) out
  ∧ ∀ i j p q,
      (i < j)%nat → out !! i = Some p → out !! j = Some q →
      number_eq (rating p) (rating q) →
      (first_index (name p) (name <$> results)
       < first_index (name q) (name <$> results))%nat.
Proof.
  intros results out Hordered.
  set (unique := ResearchAgent.dedupe results) in *.
  set (ranked := sorted rating true (PyDict.values unique)).
  assert (out = compact <$> take 20 ranked) as Hout by done.
  clearbody out. subst out. split.
  - apply (StronglySorted_fmap _ (desc rating)); [done|].
    apply (StronglySorted_app_1_l _ _ (drop 20 ranked)).
    rewrite take_drop. by apply sorted_reverse_sorted.
  - intros i j p q Hij Hi Hj Hpq.
    apply list_lookup_fmap_Some in Hi as (p' & -> & Hi).
    apply list_lookup_fmap_Some in Hj as (q' & -> & Hj).
    simpl in *.
    apply dedupe_keys_order. rewrite <- dedupe_values_names.
    change [name p'; name q'] with (name <$> [p'; q']).
    apply fmap_sublist. fold unique.
    apply (sorted_reverse_stable rating); [done..|]. fold ranked.
    etrans; [|apply (sublist_take _ 20)].
    by eapply lookup_lt_sublist.
Qed.

Lemma run_sorted_stable_witness :
  (first_index "Goa top 1a"
     (name <$> ResearchAgent.collect numbered_tool "Goa" ["1"; "1"] 2)
   < first_index "Goa top 1b"
       (name <$> ResearchAgent.collect numbered_tool "Goa" ["1"; "1"] 2))%nat.
Proof.
  refine (proj2 (run_sorted_stable numbered_tool "Goa" ["1"; "1"] 2 _)
            0%nat 1%nat
            (mkPlace "Goa top 1a" "" (Num 4) 0 0 "" [])
            (mkPlace "Goa top 1b" "" (Num 4) 0 0 "" []) _ _ _ _).
  - vm_compute. repeat constructor.
  - lia.
  - reflexivity.
  - reflexivity.
  - reflexivity.
Defined.

(** ** Dictionaries once more *)

Section dict_more.
Context {K V : Type} `{EqDecision K}.
Implicit Types (k : K) (v : V) (d : list (K * V)).

Lemma dict_alter_set (f : V → V) k v d :
  PyDict.alter f k (PyDict.set k v d) = PyDict.set k (f v) d.
Proof.
  induction d as [|[k' v'] d IH]; simpl.
  - by rewrite decide_True.
  - destruct (decide (k' = k)) as [->|Hne]; simpl.
    + by rewrite decide_True.
    + by rewrite decide_False, IH.
Qed.

Lemma dict_set_fresh k v d :
  k ∉ PyDict.keys d → PyDict.set k v d = d ++ [(k, v)].
Proof.
  unfold PyDict.keys. induction d as [|[k' v'] d IH]; csimpl; [done|].
  intros [Hne Hin]%not_elem_of_cons.
  rewrite decide_False by done. by rewrite IH.
Qed.
End dict_more.

(** ** The scheduler's loops in closed form *)

Lemma slot_loop_spec (places : list Place) (day_str : string)
    (slots : list nat) (it : list (string * list ItineraryItem))
    (items : list ItineraryItem) (index : nat) :
  let new :=
    zip_with (λ slot p,
                mkItem day_str
                  (default "" (PlannerAgent.time_blocks !! slot)) p)
      slots (drop index places) in
  PlannerAgent.slot_loop places day_str slots
    (PyDict.set day_str items it, index)
  = (PyDict.set day_str (items ++ new) it, (index + length new)%nat).
Proof.
  revert items index. induction slots as [|slot slots IH]; intros items index.
  - simpl. rewrite app_nil_r. f_equal. lia.
  - cbn [PlannerAgent.slot_loop]. cbn [fst snd].
    destruct (places !! index) as [p|] eqn:Hp.
    + rewrite dict_alter_set, IH.
      rewrite (drop_S _ _ _ Hp). simpl.
      rewrite <- app_assoc. simpl. f_equal. lia.
    + apply lookup_ge_None in Hp. rewrite drop_ge by done. simpl.
      rewrite app_nil_r. f_equal. lia.
Qed.

Lemma slot_loop_day (places : list Place) (day_str : string)
    (it : list (string * list ItineraryItem)) (index : nat) :
  PlannerAgent.slot_loop places day_str (seq 0 3)
    (PyDict.set day_str [] it, index)
  = (PyDict.set day_str (day_items day_str (drop index places)) it,
     (index + length (day_items day_str (drop index places)))%nat).
Proof.
  rewrite slot_loop_spec. cbv zeta. simpl app.
  assert (zip_with (λ slot p,
                mkItem day_str
                  (default "" (PlannerAgent.time_blocks !! slot)) p)
      (seq 0 3) (drop index places)
          = day_items day_str (drop index places)) as ->; [|done].
  unfold day_items.
  by destruct (drop index places) as [|a [|b [|c l]]].
Qed.

Lemma day_key_inj (sd : Calendar.date) (d1 d2 : nat) :
  Calendar.valid sd = true →
  Calendar.toordinal sd + Z.of_nat d1 ≤ Calendar.MAXORDINAL →
  Calendar.toordinal sd + Z.of_nat d2 ≤ Calendar.MAXORDINAL →
  day_key sd d1 = day_key sd d2 → d1 = d2.
Proof.
  intros Hsd H1 H2 Hkey.
  destruct (CalendarFacts.ord2ymd_toordinal sd Hsd) as [_ Hrange].
  destruct (CalendarFacts.toordinal_ord2ymd (Calendar.toordinal sd + Z.of_nat d1))
    as [Ho1 Hv1]; [lia|].
  destruct (CalendarFacts.toordinal_ord2ymd (Calendar.toordinal sd + Z.of_nat d2))
    as [Ho2 Hv2]; [lia|].
  apply CalendarFacts.isoformat_inj in Hkey; [|done..].
  rewrite Hkey in Ho1. lia.
Qed.

Lemma schedule_S (places : list Place) (sd : Calendar.date) (n : nat) :
  schedule places sd (S n)
  = schedule places sd n
    ++ [(day_key sd n, day_items (day_key sd n) (drop (3 * n) places))].
Proof. unfold schedule. by rewrite seq_S, fmap_app. Qed.

Lemma schedule_keys (places : list Place) (sd : Calendar.date) (n : nat) :
  PyDict.keys (schedule places sd n) = day_key sd <$> seq 0 n.
Proof.
  unfold PyDict.keys, schedule. rewrite <- list_fmap_compose.
  by apply list_fmap_ext.
Qed.

Lemma drop_min {A} (l : list A) (n : nat) :
  drop (n `min` length l) l = drop n l.
Proof.
  destruct (decide (n ≤ length l)%nat).
  - by rewrite Nat.min_l.
  - rewrite Nat.min_r, !drop_ge by lia. done.
Qed.

Lemma day_loop_spec (places : list Place) (sd : Calendar.date) (n a : nat) :
  Calendar.valid sd = true →
  Calendar.toordinal sd + Z.of_nat (a + n) ≤ Calendar.MAXORDINAL + 1 →
  PlannerAgent.day_loop places sd (seq a n)
    (schedule places sd a, (3 * a) `min` length places)%nat
  = Ok (schedule places sd (a + n),
        (3 * (a + n)) `min` length places)%nat.
Proof.
  intros Hsd. revert a. induction n as [|n IH]; intros a Hmax.
  - cbn [seq PlannerAgent.day_loop]. by rewrite Nat.add_0_r.
  - cbn [seq PlannerAgent.day_loop]. cbn [fst snd].
    destruct (CalendarFacts.ord2ymd_toordinal sd Hsd) as [_ Hrange].
    unfold Calendar.add_days.
    replace ((1 <=? Calendar.toordinal sd + Z.of_nat a)
             && (Calendar.toordinal sd + Z.of_nat a
                 <=? Calendar.MAXORDINAL)) with true
      by (symmetry; apply andb_true_iff; rewrite !Z.leb_le; lia).
    cbn [bind]. fold (day_key sd a).
    rewrite slot_loop_day, drop_min.
    rewrite dict_set_fresh.
    + rewrite <- schedule_S.
      replace (a + S n)%nat with (S a + n)%nat by lia.
      rewrite <- IH by lia. do 2 f_equal.
      unfold day_items. rewrite length_zip_with, length_drop. simpl length.
      lia.
    + rewrite schedule_keys. intros (d & Hkey & Hd)%list_elem_of_fmap.
      apply elem_of_seq in Hd.
      apply day_key_inj in Hkey; [lia|done|lia..].
Qed.

Lemma asdict_id (items : list ItineraryItem) : asdict <$> items = items.
Proof.
  induction items as [|[? ? ?] items IH]; [done|]. csimpl. by rewrite IH.
Qed.

(** What [build_itinerary] returns on the text of two valid dates. *)
Lemma build_itinerary_schedule (places : list Place)
    (sd ed : Calendar.date) :
  Calendar.valid sd = true → Calendar.valid ed = true →
  PlannerAgent.build_itinerary places
    (Calendar.isoformat sd) (Calendar.isoformat ed)
  = Ok (schedule places sd
          (Z.to_nat (Calendar.days_between sd ed + 1))).
Proof.
  intros Hsd Hed. unfold PlannerAgent.build_itinerary.
  rewrite !CalendarFacts.fromisoformat_isoformat by done. cbn [bind].
  destruct (CalendarFacts.ord2ymd_toordinal sd Hsd) as [_ Hs].
  destruct (CalendarFacts.ord2ymd_toordinal ed Hed) as [_ He].
  change (@nil (string * list ItineraryItem), 0%nat)
    with (schedule places sd 0, (3 * 0) `min` length places)%nat.
  rewrite day_loop_spec by (try done; unfold Calendar.days_between; lia).
  cbn [bind fst]. rewrite Nat.add_0_l. f_equal.
  induction (schedule _ _ _) as [|[k v] l IH]; [done|].
  csimpl. by rewrite asdict_id, IH.
Qed.

Lemma schedule_length (places : list Place) (sd : Calendar.date) (n : nat) :
  length (schedule places sd n) = n.
Proof. unfold schedule. by rewrite length_fmap, length_seq. Qed.

Lemma schedule_keys_NoDup (places : list Place) (sd : Calendar.date)
    (n : nat) :
  Calendar.valid sd = true →
  Calendar.toordinal sd + Z.of_nat n ≤ Calendar.MAXORDINAL + 1 →
  NoDup (PyDict.keys (schedule places sd n)).
Proof.
  intros Hsd Hmax. rewrite schedule_keys.
  apply NoDup_fmap_2_strong; [|apply NoDup_seq].
  intros d1 d2 H1%elem_of_seq H2%elem_of_seq.
  apply day_key_inj; [done|lia..].
Qed.

Lemma day_items_place (day_str : string) (chunk : list Place) :
  place <$> day_items day_str chunk = take 3 chunk.
Proof. by destruct chunk as [|a [|b [|c l]]]. Qed.

Lemma day_items_time_range (day_str : string) (chunk : list Place) :
  (3 ≤ length chunk)%nat →
  time_range <$> day_items day_str chunk = PlannerAgent.time_blocks.
Proof. destruct chunk as [|a [|b [|c l]]]; simpl; [lia..|done]. Qed.

Lemma schedule_places (places : list Place) (sd : Calendar.date) (n : nat) :
  place <$> concat (PyDict.values (schedule places sd n))
  = take (3 * n) places.
Proof.
  induction n as [|n IH]; [done|].
  rewrite schedule_S. unfold PyDict.values in *.
  rewrite fmap_app, concat_app, fmap_app, IH. simpl.
  rewrite app_nil_r, day_items_place, take_take_drop.
  f_equal. lia.
Qed.

(** C1. A range of [n] days with at least [3 n] places of distinct names:
    the itinerary has [n] days, each with a visit in every time block, and the
    places visited are the first [3 n], none of them twice. *)
Theorem build_itinerary_full (places : list Place) (sd ed : Calendar.date)
    (n : nat) :
  Calendar.valid sd = true → Calendar.valid ed = true →
  (1 ≤ n)%nat →
  Calendar.toordinal ed = Calendar.toordinal sd + Z.of_nat n - 1 →
  (3 * n ≤ length places)%nat →
  NoDup (name <$> places) →
  ∃ itinerary,
    PlannerAgent.build_itinerary places
      (Calendar.isoformat sd) (Calendar.isoformat ed) = Ok itinerary
    ∧ length itinerary = n
    ∧ NoDup (PyDict.keys itinerary)
    ∧ Forall (λ kv, time_range <$> kv.2 = PlannerAgent.time_blocks)
        itinerary
    ∧ place <$> concat (PyDict.values itinerary) = take (3 * n) places
    ∧ NoDup (name ∘ place <$> concat (PyDict.values itinerary)).
Proof.
  intros Hsd Hed Hn Hrange Hlen Hnd.
  destruct (CalendarFacts.ord2ymd_toordinal ed Hed) as [_ He].
  exists (schedule places sd n). split_and!.
  - rewrite build_itinerary_schedule by done. do 2 f_equal.
    unfold Calendar.days_between. lia.
  - apply schedule_length.
  - apply schedule_keys_NoDup; [done|lia].
  - unfold schedule. apply Forall_fmap, Forall_forall.
    intros d Hd%elem_of_seq. simpl.
    apply day_items_time_range. rewrite length_drop. lia.
  - apply schedule_places.
  - rewrite list_fmap_compose, schedule_places.
    eapply sublist_NoDup; [exact Hnd|]. apply fmap_sublist, sublist_take.
Qed.

Lemma build_itinerary_full_witness :
  ∃ itinerary,
    PlannerAgent.build_itinerary demo_places "2025-12-20" "2025-12-20"
    = Ok itinerary
    ∧ length itinerary = 1%nat
    ∧ NoDup (PyDict.keys itinerary)
    ∧ Forall (λ kv, time_range <$> kv.2 = PlannerAgent.time_blocks)
        itinerary
    ∧ place <$> concat (PyDict.values itinerary) = take 3 demo_places
    ∧ NoDup (name ∘ place <$> concat (PyDict.values itinerary)).
Proof.
  apply (build_itinerary_full demo_places
           (Calendar.Date 2025 12 20) (Calendar.Date 2025 12 20) 1).
  - reflexivity.
  - reflexivity.
  - lia.
  - reflexivity.
  - simpl. lia.
  - apply (bool_decide_unpack _). vm_compute. exact I.
Defined.

(** C6. An inverted range raises nothing and gives the empty itinerary. *)
Theorem build_itinerary_inverted (places : list Place)
    (sd ed : Calendar.date) :
  Calendar.valid sd = true → Calendar.valid ed = true →
  Calendar.toordinal ed < Calendar.toordinal sd →
  PlannerAgent.build_itinerary places
    (Calendar.isoformat sd) (Calendar.isoformat ed) = Ok [].
Proof.
  intros Hsd Hed Hlt. rewrite build_itinerary_schedule by done.
  unfold Calendar.days_between.
  replace (Z.to_nat _) with 0%nat by lia. done.
Qed.

Lemma build_itinerary_inverted_witness :
  PlannerAgent.build_itinerary demo_places "2025-12-20" "2025-12-19" = Ok [].
Proof.
  apply (build_itinerary_inverted demo_places
           (Calendar.Date 2025 12 20) (Calendar.Date 2025 12 19)).
  - reflexivity.
  - reflexivity.
  - vm_compute. reflexivity.
Defined.

Lemma day_key_date (sd t : Calendar.date) (d : nat) :
  Calendar.valid t = true →
  Calendar.toordinal t = Calendar.toordinal sd + Z.of_nat d →
  day_key sd d = Calendar.isoformat t.
Proof.
  intros Ht Hd. unfold day_key. rewrite <- Hd.
  by destruct (CalendarFacts.ord2ymd_toordinal t Ht) as [-> _].
Qed.

(** C4. A range with the end not before the start: the itinerary has one key
    for every date of the range, whatever the places, and a day the places do
    not reach maps to the empty list; a one-day range gives one key; a single
    candidate is the visit of the first block of the first day, and nothing
    else is scheduled. *)
Theorem build_itinerary_days (places : list Place) (sd ed : Calendar.date) :
  Calendar.valid sd = true → Calendar.valid ed = true →
  Calendar.toordinal sd ≤ Calendar.toordinal ed →
  ∃ itinerary,
    PlannerAgent.build_itinerary places
      (Calendar.isoformat sd) (Calendar.isoformat ed) = Ok itinerary
    ∧ length itinerary
      = Z.to_nat (Calendar.toordinal ed - Calendar.toordinal sd + 1)
    ∧ (∀ t, Calendar.valid t = true →
         Calendar.toordinal sd ≤ Calendar.toordinal t ≤ Calendar.toordinal ed →
         Calendar.isoformat t ∈ PyDict.keys itinerary)
    ∧ (∀ d kv, itinerary !! d = Some kv →
         (length places ≤ 3 * d)%nat → kv.2 = [])
    ∧ (sd = ed → PyDict.keys itinerary = [Calendar.isoformat sd])
    ∧ (∀ p, places = [p] →
         ∃ rest,
           itinerary
           = (Calendar.isoformat sd,
              [mkItem (Calendar.isoformat sd) "09:00-12:00" p]) :: rest
           ∧ Forall (λ kv, kv.2 = []) rest).
Proof.
  intros Hsd Hed Hle.
  set (n := Z.to_nat (Calendar.toordinal ed - Calendar.toordinal sd + 1)).
  exists (schedule places sd n). split_and!.
  - by rewrite build_itinerary_schedule.
  - apply schedule_length.
  - intros t Ht Hrange. rewrite schedule_keys.
    apply list_elem_of_fmap.
    exists (Z.to_nat (Calendar.toordinal t - Calendar.toordinal sd)).
    split; [|apply elem_of_seq; lia].
    symmetry. apply day_key_date; [done|lia].
  - intros d kv Hkv Hlen. unfold schedule in Hkv.
    apply list_lookup_fmap_Some in Hkv as (d' & -> & Hd').
    apply lookup_seq in Hd' as [-> _]. simpl.
    by rewrite drop_ge by lia.
  - intros <-. rewrite schedule_keys.
    replace n with 1%nat by lia. simpl. f_equal.
    apply day_key_date; [done|lia].
  - intros p ->.
    assert (∃ m, n = S m) as [m ->] by (exists (Nat.pred n); lia).
    unfold schedule. rewrite <- cons_seq, fmap_cons.
    rewrite (day_key_date sd sd 0) by (done || lia).
    eexists. split; [reflexivity|].
    apply Forall_fmap, Forall_forall. intros d Hd%elem_of_seq. simpl.
    by rewrite drop_ge by (simpl; lia).
Qed.

Lemma build_itinerary_days_witness :
  ∃ itinerary,
    PlannerAgent.build_itinerary [art_gallery] "2025-12-20" "2025-12-21"
    = Ok itinerary
    ∧ length itinerary = 2%nat
    ∧ (∀ t, Calendar.valid t = true →
         739605 ≤ Calendar.toordinal t ≤ 739606 →
         Calendar.isoformat t ∈ PyDict.keys itinerary)
    ∧ (∀ d kv, itinerary !! d = Some kv →
         (length [art_gallery] ≤ 3 * d)%nat → kv.2 = [])
    ∧ (Calendar.Date 2025 12 20 = Calendar.Date 2025 12 21 →
       PyDict.keys itinerary = ["2025-12-20"])
    ∧ (∀ p, [art_gallery] = [p] →
         ∃ rest,
           itinerary
           = ("2025-12-20", [mkItem "2025-12-20" "09:00-12:00" p]) :: rest
           ∧ Forall (λ kv, kv.2 = []) rest).
Proof.
  apply (build_itinerary_days [art_gallery]
           (Calendar.Date 2025 12 20) (Calendar.Date 2025 12 21)).
  - reflexivity.
  - reflexivity.
  - vm_compute. discriminate.
Defined.

(** C5. The reference search stub with interests museums, parks and markets
    ranks Central Park, City Museum, Grand Market, Art Gallery; over two days
    the first three fill the blocks of day 1 and Art Gallery is alone on
    day 2, in the first block. *)
Theorem demo_ranking_and_schedule (destination : string)
    (sd ed : Calendar.date) :
  Calendar.valid sd = true → Calendar.valid ed = true →
  Calendar.toordinal ed = Calendar.toordinal sd + 1 →
  let places :=
    ResearchAgent.run search_tool_stub destination
      ["museums"; "parks"; "markets"] 5 in
  let day1 := Calendar.isoformat sd in
  let day2 := Calendar.isoformat ed in
  places = [central_park; city_museum; grand_market; art_gallery]
  ∧ rating <$> places
    = [Num (48 # 10); Num (46 # 10); Num (45 # 10); Num (44 # 10)]
  ∧ PlannerAgent.build_itinerary places day1 day2
    = Ok [ (day1, [ mkItem day1 "09:00-12:00" central_park;
                    mkItem day1 "12:30-15:00" city_museum;
                    mkItem day1 "15:30-18:00" grand_market ]);
           (day2, [ mkItem day2 "09:00-12:00" art_gallery ]) ].
Proof.
  intros Hsd Hed Hnext places day1 day2.
  assert (places = [central_park; city_museum; grand_market; art_gallery])
    as -> by reflexivity.
  subst day1 day2. split_and!; [done..|].
  rewrite build_itinerary_schedule by done.
  unfold Calendar.days_between.
  replace (Z.to_nat _) with 2%nat by lia.
  unfold schedule. simpl.
  rewrite (day_key_date sd sd 0), (day_key_date sd ed 1) by (done || lia).
  done.
Qed.

Lemma demo_ranking_and_schedule_witness :
  let places :=
    ResearchAgent.run search_tool_stub "New York"
      ["museums"; "parks"; "markets"] 5 in
  places = [central_park; city_museum; grand_market; art_gallery]
  ∧ rating <$> places
    = [Num (48 # 10); Num (46 # 10); Num (45 # 10); Num (44 # 10)]
  ∧ PlannerAgent.build_itinerary places "2025-12-20" "2025-12-21"
    = Ok [ ("2025-12-20",
            [ mkItem "2025-12-20" "09:00-12:00" central_park;
              mkItem "2025-12-20" "12:30-15:00" city_museum;
              mkItem "2025-12-20" "15:30-18:00" grand_market ]);
           ("2025-12-21",
            [ mkItem "2025-12-21" "09:00-12:00" art_gallery ]) ].
Proof.
  apply (demo_ranking_and_schedule "New York"
           (Calendar.Date 2025 12 20) (Calendar.Date 2025 12 21)).
  - reflexivity.
  - reflexivity.
  - reflexivity.
Defined.

(** ** The session store *)

Lemma alloc_spec (v : prefs) (w : world) :
  heap w !! (alloc v w).1 = None
  ∧ heap (alloc v w).2 = <[(alloc v w).1 := v]> (heap w)
  ∧ files (alloc v w).2 = files w.
Proof.
  unfold alloc. simpl. split_and!; [|done..].
  apply not_elem_of_dom. apply is_fresh.
Qed.

Lemma alloc_extends (v : prefs) (w : world) :
  heap w ⊆ heap (alloc v w).2 ∧ heap (alloc v w).2 !! (alloc v w).1 = Some v.
Proof.
  destruct (alloc_spec v w) as (Hfresh & -> & _). split.
  - by apply insert_subseteq.
  - apply lookup_insert_eq.
Qed.

Lemma deref_weaken (w w' : world) (l : loc) (v : prefs) :
  heap w !! l = Some v → heap w ⊆ heap w' → deref w' l = v.
Proof.
  intros Hl Hsub. unfold deref. apply lookup_total_correct.
  by eapply lookup_weaken.
Qed.

Lemma load_trips_cons (r : Trip.t prefs) (ts : list (Trip.t prefs))
    (w : world) :
  load_trips (r :: ts) w
  = let a := alloc (Trip.preferences r) w in
    let b := load_trips ts a.2 in
    (Trip.map (λ _, a.1) r :: b.1, b.2).
Proof.
  cbn [load_trips]. destruct (alloc _ w) as [l w1]. cbv zeta. cbn [fst snd].
  by destruct (load_trips ts w1).
Qed.

Lemma load_trips_spec (ts : list (Trip.t prefs)) (w : world) :
  heap w ⊆ heap (load_trips ts w).2
  ∧ files (load_trips ts w).2 = files w
  ∧ ∀ w', heap (load_trips ts w).2 ⊆ heap w' →
      Trip.map (deref w') <$> (load_trips ts w).1 = ts.
Proof.
  revert w. induction ts as [|r ts IH]; intros w; [done|].
  rewrite load_trips_cons. cbv zeta. cbn [fst snd].
  destruct (alloc_extends (Trip.preferences r) w) as [Hsub Hnew].
  destruct (alloc_spec (Trip.preferences r) w) as (_ & _ & Hfiles).
  destruct (IH (alloc (Trip.preferences r) w).2) as (Hsub' & Hfiles' & Hts).
  split_and!.
  - etrans; [exact Hsub | exact Hsub'].
  - congruence.
  - intros w' Hw'. csimpl. rewrite Hts by done. f_equal.
    destruct r. unfold Trip.map. simpl. f_equal.
    eapply deref_weaken; [exact Hnew|]. etrans; [exact Hsub' | exact Hw'].
Qed.

Lemma load_session_eq (s : Session.t prefs) (w : world) :
  load_session s w
  = let a := alloc (Session.preferences s) w in
    let b := load_trips (Session.trips s) a.2 in
    (Session.mk a.1 b.1, b.2).
Proof.
  unfold load_session. destruct (alloc _ w) as [l w1]. cbv zeta.
  cbn [fst snd]. by destruct (load_trips _ w1).
Qed.

Lemma load_session_spec (s : Session.t prefs) (w : world) :
  heap w ⊆ heap (load_session s w).2
  ∧ files (load_session s w).2 = files w
  ∧ ∀ w', heap (load_session s w).2 ⊆ heap w' →
      dump_session w' (load_session s w).1 = s.
Proof.
  rewrite load_session_eq. cbv zeta. cbn [fst snd].
  destruct (alloc_extends (Session.preferences s) w) as [Hsub Hnew].
  destruct (alloc_spec (Session.preferences s) w) as (_ & _ & Hfiles).
  destruct (load_trips_spec (Session.trips s)
              (alloc (Session.preferences s) w).2)
    as (Hsub' & Hfiles' & Hts).
  split_and!.
  - etrans; [exact Hsub | exact Hsub'].
  - congruence.
  - intros w' Hw'. unfold dump_session, Session.map. simpl.
    rewrite Hts by done. destruct s. simpl. f_equal.
    eapply deref_weaken; [exact Hnew|]. etrans; [exact Hsub' | exact Hw'].
Qed.

Lemma load_sessions_cons (u : string) (s : Session.t prefs)
    (ss : list (string * Session.t prefs)) (w : world) :
  load_sessions ((u, s) :: ss) w
  = let a := load_session s w in
    let b := load_sessions ss a.2 in
    ((u, a.1) :: b.1, b.2).
Proof.
  cbn [load_sessions]. destruct (load_session s w) as [s' w1]. cbv zeta.
  cbn [fst snd]. by destruct (load_sessions ss w1).
Qed.

Lemma load_sessions_spec (ss : list (string * Session.t prefs)) (w : world) :
  heap w ⊆ heap (load_sessions ss w).2
  ∧ files (load_sessions ss w).2 = files w
  ∧ ∀ w', heap (load_sessions ss w).2 ⊆ heap w' →
      prod_map id (dump_session w') <$> (load_sessions ss w).1 = ss.
Proof.
  revert w. induction ss as [|[u s] ss IH]; intros w; [done|].
  rewrite load_sessions_cons. cbv zeta. cbn [fst snd].
  destruct (load_session_spec s w) as (Hsub & Hfiles & Hs).
  destruct (IH (load_session s w).2) as (Hsub' & Hfiles' & Hss).
  split_and!.
  - etrans; [exact Hsub | exact Hsub'].
  - congruence.
  - intros w' Hw'. csimpl. rewrite Hss by done. f_equal.
    unfold prod_map. simpl. f_equal. apply Hs.
    etrans; [exact Hsub' | exact Hw'].
Qed.

(** Reading a document back gives objects that dump to the document. *)
Lemma read_json_spec (path : string) (w : world)
    (doc : gmap string (Session.t prefs)) :
  files w !! path = Some doc →
  heap w ⊆ heap (read_json path w).2
  ∧ files (read_json path w).2 = files w
  ∧ dump_session (read_json path w).2 <$> (read_json path w).1 = doc.
Proof.
  intros Hdoc. unfold read_json. rewrite Hdoc.
  destruct (load_sessions_spec (map_to_list doc) w) as (Hsub & Hfiles & Hss).
  destruct (load_sessions (map_to_list doc) w) as [ss w'] eqn:Hload.
  simpl in *. split_and!; [done..|].
  rewrite <- list_to_map_fmap, Hss by done.
  apply list_to_map_to_list.
Qed.

(** C10. [get_session] changes neither the bank, nor the files, nor any
    dictionary; for a user the store does not hold it returns a new empty
    session, and the store still does not hold that user. *)
Theorem get_session_read_only (self : MemoryBank.t) (user_id : string)
    (w : world) :
  let '(session, self', w') := MemoryBank.get_session self user_id w in
  self' = self
  ∧ files w' = files w
  ∧ (∀ l, deref w' l = deref w l)
  ∧ (∀ s, MemoryBank.data self !! user_id = Some s → session = s)
  ∧ (MemoryBank.data self !! user_id = None →
     dump_session w' session = Session.mk ∅ []
     ∧ MemoryBank.data self' !! user_id = None
     ∧ Session.preferences session ∉ dom (heap w)).
Proof.
  unfold MemoryBank.get_session.
  destruct (MemoryBank.data self !! user_id) as [s|] eqn:Hs.
  - split_and!; [done..| |done]. by intros ? [= ->].
  - destruct (alloc_spec ∅ w) as (Hfresh & Hheap & Hfiles).
    destruct (alloc ∅ w) as [l w'] eqn:Ha. simpl in *.
    split_and!; [done..| | |].
    + intros l'. unfold deref. rewrite Hheap.
      destruct (decide (l = l')) as [<-|Hne].
      * rewrite lookup_total_insert_eq.
        by rewrite lookup_total_alt, Hfresh.
      * by rewrite lookup_total_insert_ne.
    + done.
    + intros _. split_and!; [|done|by apply not_elem_of_dom].
      unfold dump_session, Session.map, deref. simpl.
      by rewrite Hheap, lookup_total_insert_eq.
Qed.

Lemma get_session_read_only_witness :
  dump_session
    (MemoryBank.get_session (MemoryBank.mk "memory/memory_bank.json" ∅)
       "demo_user" empty_world).2
    (MemoryBank.get_session (MemoryBank.mk "memory/memory_bank.json" ∅)
       "demo_user" empty_world).1.1
  = Session.mk ∅ [].
Proof.
  pose proof (get_session_read_only
                (MemoryBank.mk "memory/memory_bank.json" ∅) "demo_user"
                empty_world) as H.
  destruct (MemoryBank.get_session _ _ _) as [[session self'] w'].
  destruct H as (_ & _ & _ & _ & H). simpl.
  apply H. reflexivity.
Defined.

Lemma dump_session_content (w1 w2 : world) (s1 s2 : Session.t loc) :
  dump_session w1 s1 = dump_session w2 s2 →
  deref w1 (Session.preferences s1) = deref w2 (Session.preferences s2)
  ∧ Forall2 (λ r1 r2, same_record w1 r1 w2 r2)
      (Session.trips s1) (Session.trips s2).
Proof.
  unfold dump_session, Session.map. intros [= Hprefs Htrips].
  split; [done|]. clear Hprefs.
  revert Htrips. generalize (Session.trips s2).
  induction (Session.trips s1) as [|r1 l1 IH]; intros [|r2 l2] Heq;
    [constructor|done|done|].
  csimpl in Heq. injection Heq as ? ? ? ? ? ? Hl.
  constructor; [|by apply IH].
  by repeat split.
Qed.

(** C9. Saving a session, building a new bank on the same path and reading
    the session back gives the same preferences and the same trips: the
    dictionary the session read back refers to has the content of the saved
    session's dictionary, and the records are as many, with the same fields
    and preferences of the same content, one by one. *)
Theorem save_then_reload (self : MemoryBank.t) (user_id : string)
    (session : Session.t loc) (w : world) :
  let '(_, w1) := MemoryBank.save_session self user_id session w in
  let '(bank, w2) := MemoryBank.init (MemoryBank.path self) w1 in
  let '(session', _, w3) := MemoryBank.get_session bank user_id w2 in
  deref w3 (Session.preferences session')
  = deref w (Session.preferences session)
  ∧ Forall2 (λ r' r, same_record w3 r' w r)
      (Session.trips session') (Session.trips session).
Proof.
  unfold MemoryBank.save_session, MemoryBank.init, write_json. simpl.
  set (doc := dump_session w <$> <[user_id:=session]> (MemoryBank.data self)).
  set (w1 := mkWorld (heap w) (<[MemoryBank.path self:=doc]> (files w))).
  destruct (read_json_spec (MemoryBank.path self) w1 doc)
    as (_ & _ & Hdoc); [apply lookup_insert_eq|].
  destruct (read_json (MemoryBank.path self) w1) as [data w2]. simpl in Hdoc.
  unfold MemoryBank.get_session. simpl.
  assert (doc !! user_id = Some (dump_session w session)) as Hu.
  { unfold doc. by rewrite lookup_fmap, lookup_insert_eq. }
  rewrite <- Hdoc, lookup_fmap in Hu.
  destruct (data !! user_id) as [session'|]; [|done].
  apply (inj Some) in Hu. by apply dump_session_content.
Qed.

Lemma deref_update (l : loc) (p : prefs) (w : world) :
  deref (update l p w) l = p ∪ deref w l.
Proof. unfold deref, update. simpl. by rewrite lookup_total_insert_eq. Qed.

Lemma deref_update_ne (l l' : loc) (p : prefs) (w : world) :
  l ≠ l' → deref (update l p w) l' = deref w l'.
Proof.
  intros Hne. unfold deref, update. simpl.
  by rewrite lookup_total_insert_ne.
Qed.

Lemma deref_write_json (path : string) (data : gmap string (Session.t loc))
    (w : world) (l : loc) :
  deref (write_json path data w) l = deref w l.
Proof. done. Qed.

(** C8. A call for a user the store holds: every supplied key maps to the
    supplied value afterwards, every other key to what it mapped to before,
    in the session the store holds after the call. *)
Theorem plan_trip_merges_preferences (self : TravelBuddy.t)
    (user_id destination start_date end_date : string)
    (interests : list string) (supplied : prefs) (now : string) (w : world)
    (session : Session.t loc) :
  MemoryBank.data (TravelBuddy.memory self) !! user_id = Some session →
  let old := deref w (Session.preferences session) in
  let '(_, self', w') :=
    TravelBuddy.plan_trip self user_id destination start_date end_date
      interests (Some supplied) now w in
  ∃ session',
    MemoryBank.data (TravelBuddy.memory self') !! user_id = Some session'
    ∧ (∀ key v, supplied !! key = Some v →
         deref w' (Session.preferences session') !! key = Some v)
    ∧ (∀ key, supplied !! key = None →
         deref w' (Session.preferences session') !! key = old !! key).
Proof.
  intros Hsession old. unfold TravelBuddy.plan_trip.
  unfold MemoryBank.get_session. rewrite Hsession. simpl.
  set (l := Session.preferences session).
  assert (deref (update l supplied w) l = supplied ∪ old) as Hmerged
    by apply deref_update.
  destruct (PlannerAgent.build_itinerary _ _ _) as [itinerary|e]; simpl.
  - eexists. split; [apply lookup_insert_eq|]. simpl. fold l.
    rewrite deref_write_json, Hmerged. split.
    + intros key v Hkey. by apply lookup_union_Some_l.
    + intros key Hkey. by apply lookup_union_r.
  - exists session. split; [done|]. fold l. rewrite Hmerged. split.
    + intros key v Hkey. by apply lookup_union_Some_l.
    + intros key Hkey. by apply lookup_union_r.
Qed.

Lemma plan_trip_merges_preferences_witness :
  let session := Session.mk 1%positive [] in
  let self :=
    TravelBuddy.mk (MemoryBank.mk demo_path {["demo_user" := session]})
      search_tool_stub in
  let w :=
    mkWorld {[1%positive := {["diet" := VStr "veg"; "max_walk_km" := VInt 5]}]}
      ∅ in
  let supplied : prefs := {["diet" := VStr "vegan"]} in
  let old := deref w (Session.preferences session) in
  let '(_, self', w') :=
    TravelBuddy.plan_trip self "demo_user" "Goa" "2026-01-10" "2026-01-11"
      ["beaches"] (Some supplied) "2026-01-02T09:00:00" w in
  ∃ session',
    MemoryBank.data (TravelBuddy.memory self') !! "demo_user" = Some session'
    ∧ (∀ key v, supplied !! key = Some v →
         deref w' (Session.preferences session') !! key = Some v)
    ∧ (∀ key, supplied !! key = None →
         deref w' (Session.preferences session') !! key = old !! key).
Proof.
  intros session self w supplied.
  apply (plan_trip_merges_preferences self "demo_user" "Goa" "2026-01-10"
           "2026-01-11" ["beaches"] supplied "2026-01-02T09:00:00" w
           session).
  reflexivity.
Defined.

(** C7 fails on the code. The record of the first trip holds the session's
    preference dictionary itself, not a copy: when the same orchestrator plans
    a second trip, the first record reads [diet = vegan], in memory and in the
    file, where it read [diet = veg] after the first call. *)
Theorem earlier_record_follows_later_preferences :
  first_trip_preferences after_first.1 "demo_user" after_first.2
  = Some {["diet" := VStr "veg"]}
  ∧ first_trip_on_disk demo_path "demo_user" after_first.2
    = Some {["diet" := VStr "veg"]}
  ∧ first_trip_preferences same_process.1 "demo_user" same_process.2
    = Some {["diet" := VStr "vegan"]}
  ∧ first_trip_on_disk demo_path "demo_user" same_process.2
    = Some {["diet" := VStr "vegan"]}.
Proof. split_and!; vm_compute; reflexivity. Qed.

(** The same two calls with the orchestrator built anew in between: the
    record read back from the file has a dictionary of its own and keeps
    [diet = veg]. *)
Lemma reloaded_record_keeps_preferences :
  first_trip_preferences restarted.1 "demo_user" restarted.2
  = Some {["diet" := VStr "veg"]}
  ∧ first_trip_on_disk demo_path "demo_user" restarted.2
    = Some {["diet" := VStr "veg"]}.
Proof. split; vm_compute; reflexivity. Qed.

(** * Further properties *)

(** ** More on the scheduler *)

Lemma day_items_day (day_str : string) (chunk : list Place) :
  Forall (λ item, day item = day_str) (day_items day_str chunk).
Proof. destruct chunk as [|a [|b [|c l]]]; repeat constructor. Qed.

Lemma day_items_blocks (day_str : string) (chunk : list Place) :
  time_range <$> day_items day_str chunk
  = take (length (day_items day_str chunk)) PlannerAgent.time_blocks.
Proof. by destruct chunk as [|a [|b [|c l]]]. Qed.

(** X1. Whatever the places and whichever way round the two valid dates are,
    [build_itinerary] raises nothing; entry [d] of the itinerary is keyed by
    the date [d] days after the start, its visits are places [3d], [3d+1],
    [3d+2] as far as they exist, in the time blocks in order, each visit
    carrying the date of its key; no date is keyed twice. *)
Theorem build_itinerary_entries (places : list Place)
    (sd ed : Calendar.date) :
  Calendar.valid sd = true → Calendar.valid ed = true →
  ∃ itinerary,
    PlannerAgent.build_itinerary places
      (Calendar.isoformat sd) (Calendar.isoformat ed) = Ok itinerary
    ∧ length itinerary
      = Z.to_nat (Calendar.toordinal ed - Calendar.toordinal sd + 1)
    ∧ NoDup (PyDict.keys itinerary)
    ∧ ∀ (d : nat) kv, itinerary !! d = Some kv →
        kv.1 = Calendar.isoformat
                 (Calendar.ord2ymd (Calendar.toordinal sd + Z.of_nat d))
        ∧ place <$> kv.2 = take 3 (drop (3 * d) places)
        ∧ time_range <$> kv.2
          = take (length kv.2) PlannerAgent.time_blocks
        ∧ Forall (λ item, day item = kv.1) kv.2.
Proof.
  intros Hsd Hed.
  destruct (CalendarFacts.ord2ymd_toordinal sd Hsd) as [_ Hs].
  destruct (CalendarFacts.ord2ymd_toordinal ed Hed) as [_ He].
  set (n := Z.to_nat (Calendar.toordinal ed - Calendar.toordinal sd + 1)).
  exists (schedule places sd n). split_and!.
  - by rewrite build_itinerary_schedule.
  - apply schedule_length.
  - apply schedule_keys_NoDup; [done|lia].
  - intros d kv Hkv. unfold schedule in Hkv.
    apply list_lookup_fmap_Some in Hkv as (d' & -> & Hd').
    apply lookup_seq in Hd' as [-> _]. simpl. split_and!.
    + done.
    + apply day_items_place.
    + apply day_items_blocks.
    + apply day_items_day.
Qed.

Lemma build_itinerary_entries_witness :
  ∃ itinerary,
    PlannerAgent.build_itinerary demo_places "2025-12-20" "2025-12-22"
    = Ok itinerary
    ∧ length itinerary = 3%nat
    ∧ NoDup (PyDict.keys itinerary)
    ∧ ∀ (d : nat) kv, itinerary !! d = Some kv →
        kv.1 = Calendar.isoformat
                 (Calendar.ord2ymd (739605 + Z.of_nat d))
        ∧ place <$> kv.2 = take 3 (drop (3 * d) demo_places)
        ∧ time_range <$> kv.2
          = take (length kv.2) PlannerAgent.time_blocks
        ∧ Forall (λ item, day item = kv.1) kv.2.
Proof.
  apply (build_itinerary_entries demo_places
           (Calendar.Date 2025 12 20) (Calendar.Date 2025 12 22));
    reflexivity.
Defined.

(** X2. The places of the visits, read day after day, are the first
    [min (3 n) (length places)] places in their order, [n] being the number of
    days: the cursor is shared by the days and never goes back. *)
Theorem build_itinerary_consumes_prefix (places : list Place)
    (sd ed : Calendar.date) :
  Calendar.valid sd = true → Calendar.valid ed = true →
  ∃ itinerary,
    PlannerAgent.build_itinerary places
      (Calendar.isoformat sd) (Calendar.isoformat ed) = Ok itinerary
    ∧ let n := length itinerary in
      let visits := concat (PyDict.values itinerary) in
      place <$> visits = take (3 * n) places
      ∧ length visits = ((3 * n) `min` length places)%nat.
Proof.
  intros Hsd Hed. eexists. split; [by apply build_itinerary_schedule|].
  cbv zeta. rewrite schedule_length.
  set (n := Z.to_nat _).
  pose proof (schedule_places places sd n) as Hplaces.
  split; [done|].
  rewrite <- (length_fmap place), Hplaces, length_take. done.
Qed.

Lemma build_itinerary_consumes_prefix_witness :
  ∃ itinerary,
    PlannerAgent.build_itinerary demo_places "2025-12-20" "2025-12-22"
    = Ok itinerary
    ∧ let n := length itinerary in
      let visits := concat (PyDict.values itinerary) in
      place <$> visits = take (3 * n) demo_places
      ∧ length visits = ((3 * n) `min` length demo_places)%nat.
Proof.
  apply (build_itinerary_consumes_prefix demo_places
           (Calendar.Date 2025 12 20) (Calendar.Date 2025 12 22));
    reflexivity.
Defined.

Lemma fromisoformat_digits (d : Calendar.date) :
  0 ≤ Calendar.year d ≤ 9999 → 0 ≤ Calendar.month d ≤ 99 →
  0 ≤ Calendar.day d ≤ 99 →
  Calendar.fromisoformat (Calendar.isoformat d)
  = if Calendar.valid d then Ok d else Raise ValueError.
Proof.
  destruct d as [y m d]. simpl. intros Hy Hm Hd.
  unfold Calendar.isoformat, Calendar.fromisoformat.
  cbn [Calendar.year Calendar.month Calendar.day]. cbv iota beta.
  rewrite CalendarFacts.number4, !CalendarFacts.number2
    by (Z.div_mod_to_equations; lia).
  replace (1000 * (y / 1000) + 100 * (y / 100 mod 10) + 10 * (y / 10 mod 10)
           + y mod 10) with y by (Z.div_mod_to_equations; lia).
  replace (10 * (m / 10) + m mod 10) with m by (Z.div_mod_to_equations; lia).
  replace (10 * (d / 10) + d mod 10) with d by (Z.div_mod_to_equations; lia).
  reflexivity.
Qed.

(** X3. A start or an end in the form [YYYY-MM-DD] that is no calendar date
    (month 13, 30 February, year 0) makes [build_itinerary] raise
    [ValueError], whatever the places; the start is read first. *)
Theorem build_itinerary_bad_date (places : list Place)
    (bad : Calendar.date) (other : string) (sd : Calendar.date) :
  0 ≤ Calendar.year bad ≤ 9999 → 0 ≤ Calendar.month bad ≤ 99 →
  0 ≤ Calendar.day bad ≤ 99 →
  Calendar.valid bad = false →
  Calendar.valid sd = true →
  PlannerAgent.build_itinerary places (Calendar.isoformat bad) other
  = Raise ValueError
  ∧ PlannerAgent.build_itinerary places
      (Calendar.isoformat sd) (Calendar.isoformat bad)
    = Raise ValueError.
Proof.
  intros Hy Hm Hd Hbad Hsd. unfold PlannerAgent.build_itinerary.
  rewrite (fromisoformat_digits bad), Hbad by done.
  rewrite CalendarFacts.fromisoformat_isoformat by done. done.
Qed.

Lemma build_itinerary_bad_date_witness :
  PlannerAgent.build_itinerary demo_places "2025-02-30" "not a date"
  = Raise ValueError
  ∧ PlannerAgent.build_itinerary demo_places "2025-02-01" "2025-02-30"
    = Raise ValueError.
Proof.
  apply (build_itinerary_bad_date demo_places (Calendar.Date 2025 2 30)
           "not a date" (Calendar.Date 2025 2 1));
    first [reflexivity | simpl; lia].
Defined.

(** ** More on the collector *)

Section dict_ext.
Context {K V : Type} `{EqDecision K}.
Implicit Types (k : K) (v : V) (d : list (K * V)).

Lemma dict_get_absent k d : k ∉ PyDict.keys d → PyDict.get k d = None.
Proof.
  unfold PyDict.keys. induction d as [|[k' v'] d IH]; csimpl; [done|].
  intros [Hne Hin]%not_elem_of_cons.
  rewrite decide_False by done. by apply IH.
Qed.

Lemma dict_get_Some_elem_of k v d : PyDict.get k d = Some v → (k, v) ∈ d.
Proof.
  induction d as [|[k' v'] d IH]; simpl; [done|].
  destruct (decide (k' = k)) as [->|Hne].
  - intros [= ->]. apply elem_of_cons. by left.
  - intros Hget. apply elem_of_cons. right. by apply IH.
Qed.

(** A dictionary is its keys, in order, and what they map to. *)
Lemma dict_ext d1 d2 :
  NoDup (PyDict.keys d1) → PyDict.keys d1 = PyDict.keys d2 →
  (∀ k, PyDict.get k d1 = PyDict.get k d2) → d1 = d2.
Proof.
  revert d2. induction d1 as [|[k v] d1 IH]; intros [|[k' v'] d2];
    unfold PyDict.keys; csimpl; try done.
  intros [Hk Hnd]%NoDup_cons [= <- Hkeys] Hget.
  pose proof (Hget k) as Hv. simpl in Hv. rewrite !decide_True in Hv by done.
  injection Hv as <-. f_equal. apply IH; [done..|].
  intros n. destruct (decide (k = n)) as [<-|Hne].
  - rewrite !dict_get_absent; [done| |done].
    unfold PyDict.keys. by rewrite <- Hkeys.
  - specialize (Hget n). simpl in Hget. by rewrite !decide_False in Hget.
Qed.
End dict_ext.

Lemma dedupe_get (rs : list Place) (n : string) :
  PyDict.get n (ResearchAgent.dedupe rs) = last_named n rs.
Proof.
  unfold last_named. induction rs as [|r rs IH] using rev_ind; [done|].
  rewrite dedupe_snoc, filter_app.
  rewrite filter_cons, filter_nil.
  destruct (decide (name r = n)) as [<-|Hne].
  - by rewrite dict_get_set_eq, last_snoc.
  - by rewrite dict_get_set_ne, app_nil_r.
Qed.

Lemma dedupe_keys_app (rs l : list Place) :
  name <$> l ⊆ name <$> rs →
  PyDict.keys (ResearchAgent.dedupe (rs ++ l))
  = PyDict.keys (ResearchAgent.dedupe rs).
Proof.
  induction l as [|r l IH] using rev_ind; intros Hsub.
  - by rewrite app_nil_r.
  - rewrite fmap_app in Hsub.
    rewrite app_assoc, dedupe_snoc, dict_keys_set_in.
    + apply IH. intros n Hn. apply Hsub, elem_of_app. by left.
    + apply dedupe_keys_elem_of. rewrite fmap_app, elem_of_app. left.
      apply Hsub, elem_of_app. right. simpl. apply elem_of_cons. by left.
Qed.

(** Hits that repeat the end of the results change nothing. *)
Lemma dedupe_absorb (rs h : list Place) :
  ResearchAgent.dedupe (rs ++ h ++ h) = ResearchAgent.dedupe (rs ++ h).
Proof.
  apply dict_ext.
  - apply dedupe_NoDup.
  - rewrite app_assoc. apply dedupe_keys_app.
    intros n Hn. rewrite fmap_app, elem_of_app. by right.
  - intros n. rewrite !dedupe_get. unfold last_named.
    rewrite !filter_app.
    destruct (filter (λ r, name r = n) h) as [|x l] eqn:Hf using rev_ind.
    + by rewrite !app_nil_r.
    + by rewrite !app_assoc, !last_snoc.
Qed.

Lemma collect_app (tool : string → Z → list Place) (dest : string)
    (is1 is2 : list string) (k : Z) :
  ResearchAgent.collect tool dest (is1 ++ is2) k
  = ResearchAgent.collect tool dest is1 k
    ++ ResearchAgent.collect tool dest is2 k.
Proof.
  unfold ResearchAgent.collect.
  induction is2 as [|i is2 IH] using rev_ind.
  - by rewrite !app_nil_r.
  - by rewrite app_assoc, !foldl_snoc, IH, app_assoc.
Qed.

Lemma run_of_dedupe (tool : string → Z → list Place) dest interests k :
  ResearchAgent.run tool dest interests k
  = compact <$> take 20 (sorted rating true (PyDict.values
      (ResearchAgent.dedupe (ResearchAgent.collect tool dest interests k)))).
Proof. done. Qed.

(** X4. The output has as many records as the hits have distinct names, and
    never more than 20. *)
Theorem run_length (tool : string → Z → list Place) dest interests k :
  length (ResearchAgent.run tool dest interests k)
  = (20 `min` size (list_to_set (name <$>
       ResearchAgent.collect tool dest interests k) : gset string))%nat.
Proof.
  rewrite run_of_dedupe, length_fmap, length_take.
  rewrite sorted_perm. unfold PyDict.values.
  by rewrite length_fmap, dedupe_size.
Qed.

(** X5. Asking every interest twice over gives the same output as asking it
    once. *)
Theorem run_repeated_interests (tool : string → Z → list Place)
    dest interests k :
  ResearchAgent.run tool dest (interests ++ interests) k
  = ResearchAgent.run tool dest interests k.
Proof.
  rewrite !run_of_dedupe, collect_app.
  pose proof (dedupe_absorb []
                (ResearchAgent.collect tool dest interests k)) as Habsorb.
  simpl in Habsorb. by rewrite Habsorb.
Qed.

Lemma collect_stub (dest : string) (interests : list string) (k : Z) :
  ResearchAgent.collect search_tool_stub dest interests k
  = concat (replicate (length interests) (slice_to k demo_places)).
Proof.
  induction interests as [|i interests IH] using rev_ind; [done|].
  rewrite collect_app, IH, length_app. simpl.
  rewrite Nat.add_1_r, replicate_S_end, concat_app. simpl.
  unfold ResearchAgent.collect, search_tool_stub. simpl.
  by rewrite app_nil_r.
Qed.

Lemma dedupe_replicate (h : list Place) (n : nat) :
  ResearchAgent.dedupe (concat (replicate (S n) h)) = ResearchAgent.dedupe h.
Proof.
  induction n as [|n IH]; [simpl; by rewrite app_nil_r|].
  rewrite <- IH. rewrite (replicate_S_end (S n)), replicate_S_end.
  rewrite !concat_app. simpl. rewrite !app_nil_r, <- app_assoc.
  apply dedupe_absorb.
Qed.

(** X6. The reference stub does not read the query: with it the output is
    the same for every destination and every list of interests that is not
    empty, and is empty when no interest is given. *)
Theorem run_stub_ignores_query (dest dest' : string)
    (interests interests' : list string) (k : Z) :
  interests ≠ [] → interests' ≠ [] →
  ResearchAgent.run search_tool_stub dest interests k
  = ResearchAgent.run search_tool_stub dest' interests' k
  ∧ ResearchAgent.run search_tool_stub dest [] k = [].
Proof.
  intros Hi Hi'. split; [|done].
  rewrite !run_of_dedupe, !collect_stub.
  destruct interests as [|i interests]; [done|].
  destruct interests' as [|i' interests']; [done|].
  simpl length. by rewrite !dedupe_replicate.
Qed.

Lemma run_stub_ignores_query_witness :
  ResearchAgent.run search_tool_stub "New York" ["museums"; "parks"] 5
  = ResearchAgent.run search_tool_stub "Chennai" ["beaches"] 5
  ∧ ResearchAgent.run search_tool_stub "New York" [] 5 = [].
Proof.
  apply (run_stub_ignores_query "New York" "Chennai"
           ["museums"; "parks"] ["beaches"] 5); discriminate.
Defined.

Lemma dedupe_app (l1 l2 : list Place) :
  ResearchAgent.dedupe (l1 ++ l2)
  = foldl (λ unique r, PyDict.set (name r) r unique)
      (ResearchAgent.dedupe l1) l2.
Proof. unfold ResearchAgent.dedupe. by rewrite foldl_app. Qed.

Lemma dedupe_last_seen (l1 l2 : list Place) (r : Place) :
  name r ∉ name <$> l2 →
  (name r, r) ∈ ResearchAgent.dedupe (l1 ++ r :: l2).
Proof.
  intros Hl2. apply dict_get_Some_elem_of. rewrite dedupe_get.
  unfold last_named. rewrite filter_app, filter_cons, decide_True by done.
  assert (filter (λ r0, name r0 = name r) l2 = []) as ->.
  { induction l2 as [|x l2 IH]; [done|]. csimpl in Hl2.
    apply not_elem_of_cons in Hl2 as [Hx Hl2].
    rewrite filter_cons, decide_False by done. by apply IH. }
  by rewrite last_snoc.
Qed.

(** X7. When none of the records kept for their names has a NaN rating,
    the cut to 20 leaves out the lowest rated: a name whose last hit is not in
    the output has, in that hit, a rating no higher than any record of the
    output. *)
Theorem run_cut_keeps_best (tool : string → Z → list Place)
    dest interests k (l1 l2 : list Place) (r p : Place) :
  ordered rating
    (PyDict.values
       (ResearchAgent.dedupe (ResearchAgent.collect tool dest interests k))) →
  ResearchAgent.collect tool dest interests k = l1 ++ r :: l2 →
  name r ∉ name <$> l2 →
  name r ∉ name <$> ResearchAgent.run tool dest interests k →
  p ∈ ResearchAgent.run tool dest interests k →
  number_le (rating r) (rating p).
Proof.
  intros Hordered Hres Hlast Hout Hp. rewrite run_of_dedupe in Hout, Hp.
  rewrite Hres in Hordered, Hout, Hp.
  set (ranked := sorted rating true
                   (PyDict.values (ResearchAgent.dedupe (l1 ++ r :: l2))))
    in *.
  assert (r ∈ ranked) as Hr.
  { unfold ranked. rewrite sorted_perm. unfold PyDict.values.
    apply list_elem_of_fmap. exists (name r, r).
    split; [done | by apply dedupe_last_seen]. }
  apply list_elem_of_fmap in Hp as (p' & -> & Hp'). simpl.
  rewrite <- (take_drop 20 ranked) in Hr.
  apply elem_of_app in Hr as [Hr|Hr].
  - exfalso. apply Hout. rewrite <- list_fmap_compose.
    apply list_elem_of_fmap. by exists r.
  - pose proof (sorted_reverse_sorted rating _ Hordered) as Hsorted.
    fold ranked in Hsorted. rewrite <- (take_drop 20 ranked) in Hsorted.
    by apply (StronglySorted_app_1_elem_of _ _ _ p' r) in Hsorted.
Qed.

Lemma run_cut_keeps_best_witness :
  number_le (rating (mkPlace "Goa top 5e" "" (Num 4) 0 0 "" []))
    (rating (mkPlace "Goa top 1a" "" (Num 4) 0 0 "" [])).
Proof.
  apply (run_cut_keeps_best numbered_tool "Goa" ["1"; "2"; "3"; "4"; "5"] 5
           (take 24 (ResearchAgent.collect numbered_tool "Goa"
                       ["1"; "2"; "3"; "4"; "5"] 5)) []).
  - vm_compute. repeat constructor.
  - reflexivity.
  - apply not_elem_of_nil.
  - intros Hin. apply list_elem_of_In in Hin. vm_compute in Hin.
    repeat (destruct Hin as [Hin|Hin]; [discriminate Hin|]). exact Hin.
  - apply list_elem_of_In. vm_compute. left. reflexivity.
Defined.

(** ** More on the orchestrator and the store *)

Lemma plan_trip_ok (self : TravelBuddy.t)
    (user_id destination start_date end_date : string)
    (interests : list string) (preferences : option prefs) (now : string)
    (w : world) (itinerary : list (string * list ItineraryItem)) :
  let top_places :=
    take 12 (ResearchAgent.run (TravelBuddy.search_tool self) destination
               interests 5) in
  PlannerAgent.build_itinerary top_places start_date end_date = Ok itinerary →
  TravelBuddy.plan_trip self user_id destination start_date end_date
    interests preferences now w
  = let gs := MemoryBank.get_session (TravelBuddy.memory self) user_id w in
    let l := Session.preferences gs.1.1 in
    let w2 := update l (default ∅ preferences) gs.2 in
    let session :=
      Session.mk l
        (Session.trips gs.1.1
         ++ [Trip.mk destination start_date end_date itinerary l now]) in
    let sv := MemoryBank.save_session gs.1.2 user_id session w2 in
    (Ok (TravelBuddy.mkOutput itinerary top_places session
           (TravelBuddy.mkSummary destination (length itinerary)
              (length top_places) true)),
     TravelBuddy.mk sv.1 (TravelBuddy.search_tool self), sv.2).
Proof.
  intros top_places Hok. unfold TravelBuddy.plan_trip.
  destruct (MemoryBank.get_session _ _ _) as [[session m1] w1].
  fold top_places. rewrite Hok. done.
Qed.

Lemma plan_trip_raise (self : TravelBuddy.t)
    (user_id destination start_date end_date : string)
    (interests : list string) (preferences : option prefs) (now : string)
    (w : world) (e : exn) :
  let top_places :=
    take 12 (ResearchAgent.run (TravelBuddy.search_tool self) destination
               interests 5) in
  PlannerAgent.build_itinerary top_places start_date end_date = Raise e →
  TravelBuddy.plan_trip self user_id destination start_date end_date
    interests preferences now w
  = let gs := MemoryBank.get_session (TravelBuddy.memory self) user_id w in
    (Raise e, TravelBuddy.mk gs.1.2 (TravelBuddy.search_tool self),
     update (Session.preferences gs.1.1) (default ∅ preferences) gs.2).
Proof.
  intros top_places Hraise. unfold TravelBuddy.plan_trip.
  destruct (MemoryBank.get_session _ _ _) as [[session m1] w1].
  fold top_places. rewrite Hraise. done.
Qed.

Lemma get_session_bank (self : MemoryBank.t) (user_id : string) (w : world) :
  (MemoryBank.get_session self user_id w).1.2 = self
  ∧ files (MemoryBank.get_session self user_id w).2 = files w.
Proof.
  unfold MemoryBank.get_session.
  destruct (MemoryBank.data self !! user_id); [done|].
  by destruct (alloc_spec ∅ w) as (_ & _ & ?).
Qed.

(** X8. With two valid dates [plan_trip] raises nothing.  The session it
    returns is the one [get_session] gave, with one record more, made of the
    arguments, the itinerary and the session's own preference dictionary;
    the store holds that session for the user and holds every other user's
    session as before; the summary counts the days of the itinerary and the
    places scheduled against, at most 12. *)
Theorem plan_trip_appends_trip (self : TravelBuddy.t)
    (user_id destination : string) (sd ed : Calendar.date)
    (interests : list string) (preferences : option prefs) (now : string)
    (w : world) :
  Calendar.valid sd = true → Calendar.valid ed = true →
  let start_date := Calendar.isoformat sd in
  let end_date := Calendar.isoformat ed in
  let prior :=
    (MemoryBank.get_session (TravelBuddy.memory self) user_id w).1.1 in
  let '(r, self', w') :=
    TravelBuddy.plan_trip self user_id destination start_date end_date
      interests preferences now w in
  ∃ out,
    r = Ok out
    ∧ TravelBuddy.out_places out
      = take 12 (ResearchAgent.run (TravelBuddy.search_tool self)
                   destination interests 5)
    ∧ PlannerAgent.build_itinerary (TravelBuddy.out_places out)
        start_date end_date = Ok (TravelBuddy.out_itinerary out)
    ∧ TravelBuddy.out_session out
      = Session.mk (Session.preferences prior)
          (Session.trips prior
           ++ [Trip.mk destination start_date end_date
                 (TravelBuddy.out_itinerary out)
                 (Session.preferences prior) now])
    ∧ MemoryBank.data (TravelBuddy.memory self') !! user_id
      = Some (TravelBuddy.out_session out)
    ∧ (∀ u, u ≠ user_id →
         MemoryBank.data (TravelBuddy.memory self') !! u
         = MemoryBank.data (TravelBuddy.memory self) !! u)
    ∧ TravelBuddy.out_summary out
      = TravelBuddy.mkSummary destination
          (Z.to_nat (Calendar.toordinal ed - Calendar.toordinal sd + 1))
          (length (TravelBuddy.out_places out)) true
    ∧ (length (TravelBuddy.out_places out) ≤ 12)%nat.
Proof.
  intros Hsd Hed start_date end_date prior.
  set (top := take 12 (ResearchAgent.run (TravelBuddy.search_tool self)
                         destination interests 5)).
  pose proof (build_itinerary_schedule top sd ed Hsd Hed) as Hok.
  rewrite (plan_trip_ok _ _ _ _ _ _ _ _ _ _ Hok). cbv zeta.
  destruct (get_session_bank (TravelBuddy.memory self) user_id w) as [-> _].
  fold prior top. cbn [fst snd]. eexists. split; [reflexivity|].
  cbn [TravelBuddy.out_places TravelBuddy.out_itinerary
       TravelBuddy.out_session TravelBuddy.out_summary
       TravelBuddy.memory MemoryBank.save_session MemoryBank.data fst].
  split_and!; try done.
  - apply lookup_insert_eq.
  - intros u Hu. by apply lookup_insert_ne.
  - by rewrite schedule_length.
  - unfold top. rewrite length_take. lia.
Qed.

Lemma plan_trip_appends_trip_witness :
  let self :=
    TravelBuddy.mk (MemoryBank.mk demo_path ∅) search_tool_stub in
  let sd := Calendar.Date 2025 12 10 in
  let ed := Calendar.Date 2025 12 12 in
  let start_date := Calendar.isoformat sd in
  let end_date := Calendar.isoformat ed in
  let prior :=
    (MemoryBank.get_session (TravelBuddy.memory self) "demo_user"
       empty_world).1.1 in
  let '(r, self', w') :=
    TravelBuddy.plan_trip self "demo_user" "Chennai" start_date end_date
      ["beaches"; "markets"] (Some {["diet" := VStr "veg"]})
      "2025-12-01T10:00:00" empty_world in
  ∃ out,
    r = Ok out
    ∧ TravelBuddy.out_places out
      = take 12 (ResearchAgent.run (TravelBuddy.search_tool self)
                   "Chennai" ["beaches"; "markets"] 5)
    ∧ PlannerAgent.build_itinerary (TravelBuddy.out_places out)
        start_date end_date = Ok (TravelBuddy.out_itinerary out)
    ∧ TravelBuddy.out_session out
      = Session.mk (Session.preferences prior)
          (Session.trips prior
           ++ [Trip.mk "Chennai" start_date end_date
                 (TravelBuddy.out_itinerary out)
                 (Session.preferences prior) "2025-12-01T10:00:00"])
    ∧ MemoryBank.data (TravelBuddy.memory self') !! "demo_user"
      = Some (TravelBuddy.out_session out)
    ∧ (∀ u, u ≠ "demo_user" →
         MemoryBank.data (TravelBuddy.memory self') !! u
         = MemoryBank.data (TravelBuddy.memory self) !! u)
    ∧ TravelBuddy.out_summary out
      = TravelBuddy.mkSummary "Chennai"
          (Z.to_nat (Calendar.toordinal ed - Calendar.toordinal sd + 1))
          (length (TravelBuddy.out_places out)) true
    ∧ (length (TravelBuddy.out_places out) ≤ 12)%nat.
Proof.
  intros self sd ed.
  apply (plan_trip_appends_trip self "demo_user" "Chennai" sd ed
           ["beaches"; "markets"] (Some {["diet" := VStr "veg"]})
           "2025-12-01T10:00:00" empty_world); reflexivity.
Defined.

(** X9. When [build_itinerary] raises, [plan_trip] raises the same error
    with nothing saved: the store and the files are as before, no record is
    appended.  The preferences are merged before the planning, so a session
    the store holds has the supplied preferences merged in memory all the
    same. *)
Theorem plan_trip_failure (self : TravelBuddy.t)
    (user_id destination start_date end_date : string)
    (interests : list string) (supplied : prefs) (now : string)
    (w : world) (e : exn) :
  PlannerAgent.build_itinerary
    (take 12 (ResearchAgent.run (TravelBuddy.search_tool self) destination
                interests 5)) start_date end_date = Raise e →
  let '(r, self', w') :=
    TravelBuddy.plan_trip self user_id destination start_date end_date
      interests (Some supplied) now w in
  r = Raise e
  ∧ self' = self
  ∧ files w' = files w
  ∧ ∀ session,
      MemoryBank.data (TravelBuddy.memory self) !! user_id = Some session →
      deref w' (Session.preferences session)
      = supplied ∪ deref w (Session.preferences session).
Proof.
  intros Hraise. rewrite (plan_trip_raise _ _ _ _ _ _ _ _ _ _ Hraise).
  cbv zeta.
  destruct (get_session_bank (TravelBuddy.memory self) user_id w)
    as [-> Hfiles].
  split_and!; [done|by destruct self|done|].
  intros session Hsession. unfold MemoryBank.get_session.
  rewrite Hsession. simpl. apply deref_update.
Qed.

Lemma plan_trip_failure_witness :
  let session := Session.mk 1%positive [] in
  let self :=
    TravelBuddy.mk (MemoryBank.mk demo_path {["demo_user" := session]})
      search_tool_stub in
  let w := mkWorld {[1%positive := {["diet" := VStr "veg"]}]} ∅ in
  let supplied : prefs := {["diet" := VStr "vegan"]} in
  let '(r, self', w') :=
    TravelBuddy.plan_trip self "demo_user" "Goa" "2026-02-30" "2026-03-01"
      ["beaches"] (Some supplied) "2026-01-02T09:00:00" w in
  r = Raise ValueError
  ∧ self' = self
  ∧ files w' = files w
  ∧ ∀ session',
      MemoryBank.data (TravelBuddy.memory self) !! "demo_user"
      = Some session' →
      deref w' (Session.preferences session')
      = supplied ∪ deref w (Session.preferences session').
Proof.
  intros session self w supplied.
  apply (plan_trip_failure self "demo_user" "Goa" "2026-02-30" "2026-03-01"
           ["beaches"] supplied "2026-01-02T09:00:00" w ValueError).
  reflexivity.
Defined.

Lemma save_session_reload (self : MemoryBank.t) (user_id : string)
    (session : Session.t loc) (w : world) :
  let sv := MemoryBank.save_session self user_id session w in
  let rd := read_json (MemoryBank.path self) sv.2 in
  dump_session rd.2 <$> rd.1
  = dump_session w <$> <[user_id := session]> (MemoryBank.data self).
Proof.
  cbv zeta. unfold MemoryBank.save_session, write_json. simpl.
  set (doc := dump_session w <$> <[user_id:=session]> (MemoryBank.data self)).
  set (w1 := mkWorld (heap w) (<[MemoryBank.path self:=doc]> (files w))).
  by destruct (read_json_spec (MemoryBank.path self) w1 doc)
    as (_ & _ & Hdoc); [apply lookup_insert_eq|].
Qed.

(** X10. What a successful [plan_trip] returns as the session is what an
    orchestrator built afterwards on the same path reads for that user:
    preferences of the same content and the same records, one by one. *)
Theorem plan_trip_then_restart (self : TravelBuddy.t)
    (user_id destination : string) (sd ed : Calendar.date)
    (interests : list string) (preferences : option prefs) (now : string)
    (w : world) :
  Calendar.valid sd = true → Calendar.valid ed = true →
  let '(r, _, w') :=
    TravelBuddy.plan_trip self user_id destination
      (Calendar.isoformat sd) (Calendar.isoformat ed)
      interests preferences now w in
  let '(tb, w2) :=
    TravelBuddy.init (MemoryBank.path (TravelBuddy.memory self))
      (TravelBuddy.search_tool self) w' in
  let '(session, _, w3) :=
    MemoryBank.get_session (TravelBuddy.memory tb) user_id w2 in
  ∃ out,
    r = Ok out
    ∧ deref w3 (Session.preferences session)
      = deref w' (Session.preferences (TravelBuddy.out_session out))
    ∧ Forall2 (λ r' r, same_record w3 r' w' r)
        (Session.trips session)
        (Session.trips (TravelBuddy.out_session out)).
Proof.
  intros Hsd Hed.
  set (top := take 12 (ResearchAgent.run (TravelBuddy.search_tool self)
                         destination interests 5)).
  pose proof (build_itinerary_schedule top sd ed Hsd Hed) as Hok.
  rewrite (plan_trip_ok _ _ _ _ _ _ _ _ _ _ Hok). cbv zeta.
  destruct (get_session_bank (TravelBuddy.memory self) user_id w) as [-> _].
  set (gs := MemoryBank.get_session (TravelBuddy.memory self) user_id w).
  set (session := Session.mk _ _).
  set (w2 := update _ _ _).
  pose proof (save_session_reload (TravelBuddy.memory self) user_id
                session w2) as Hreload.
  cbv zeta in Hreload.
  unfold TravelBuddy.init, MemoryBank.init.
  cbn [MemoryBank.save_session fst snd MemoryBank.path MemoryBank.data
       TravelBuddy.memory] in *.
  destruct (read_json _ _) as [data w3] eqn:Hrd.
  cbn [fst snd] in Hreload.
  unfold MemoryBank.get_session. simpl.
  assert ((dump_session w3 <$> data) !! user_id
          = Some (dump_session w2 session)) as Hu.
  { by rewrite Hreload, lookup_fmap, lookup_insert_eq. }
  rewrite lookup_fmap in Hu.
  destruct (data !! user_id) as [session'|]; [|done].
  apply (inj Some) in Hu. eexists. split; [reflexivity|].
  by apply (dump_session_content w3 w2).
Qed.

(** X11. [plan_trip] schedules against 12 places at most, so from the fifth
    day on every day of its itinerary is empty. *)
Theorem plan_trip_late_days_empty (self : TravelBuddy.t)
    (user_id destination : string) (sd ed : Calendar.date)
    (interests : list string) (preferences : option prefs) (now : string)
    (w : world) :
  Calendar.valid sd = true → Calendar.valid ed = true →
  let '(r, _, _) :=
    TravelBuddy.plan_trip self user_id destination
      (Calendar.isoformat sd) (Calendar.isoformat ed)
      interests preferences now w in
  ∃ out,
    r = Ok out
    ∧ ∀ (d : nat) kv,
        TravelBuddy.out_itinerary out !! d = Some kv → (4 ≤ d)%nat →
        kv.2 = [].
Proof.
  intros Hsd Hed.
  set (top := take 12 (ResearchAgent.run (TravelBuddy.search_tool self)
                         destination interests 5)).
  pose proof (build_itinerary_schedule top sd ed Hsd Hed) as Hok.
  rewrite (plan_trip_ok _ _ _ _ _ _ _ _ _ _ Hok). cbv zeta.
  eexists. split; [reflexivity|]. simpl.
  intros d kv Hkv Hd. unfold schedule in Hkv.
  apply list_lookup_fmap_Some in Hkv as (d' & -> & Hd').
  apply lookup_seq in Hd' as [-> _]. simpl.
  rewrite drop_ge; [done|]. unfold top. rewrite length_take. lia.
Qed.

Lemma plan_trip_then_restart_witness :
  let self :=
    TravelBuddy.mk (MemoryBank.mk demo_path ∅) search_tool_stub in
  let '(r, _, w') :=
    TravelBuddy.plan_trip self "demo_user" "Chennai"
      (Calendar.isoformat (Calendar.Date 2025 12 10))
      (Calendar.isoformat (Calendar.Date 2025 12 12))
      ["beaches"; "markets"] (Some {["diet" := VStr "veg"]})
      "2025-12-01T10:00:00" empty_world in
  let '(tb, w2) :=
    TravelBuddy.init (MemoryBank.path (TravelBuddy.memory self))
      (TravelBuddy.search_tool self) w' in
  let '(session, _, w3) :=
    MemoryBank.get_session (TravelBuddy.memory tb) "demo_user" w2 in
  ∃ out,
    r = Ok out
    ∧ deref w3 (Session.preferences session)
      = deref w' (Session.preferences (TravelBuddy.out_session out))
    ∧ Forall2 (λ r' r, same_record w3 r' w' r)
        (Session.trips session)
        (Session.trips (TravelBuddy.out_session out)).
Proof.
  intros self.
  apply (plan_trip_then_restart self "demo_user" "Chennai"
           (Calendar.Date 2025 12 10) (Calendar.Date 2025 12 12)
           ["beaches"; "markets"] (Some {["diet" := VStr "veg"]})
           "2025-12-01T10:00:00" empty_world); reflexivity.
Defined.

Lemma plan_trip_late_days_empty_witness :
  let self :=
    TravelBuddy.mk (MemoryBank.mk demo_path ∅) numbered_tool in
  let '(r, _, _) :=
    TravelBuddy.plan_trip self "demo_user" "Goa"
      (Calendar.isoformat (Calendar.Date 2026 1 10))
      (Calendar.isoformat (Calendar.Date 2026 1 16))
      ["1"; "2"; "3"; "4"; "5"] None "2026-01-02T09:00:00" empty_world in
  ∃ out,
    r = Ok out
    ∧ ∀ (d : nat) kv,
        TravelBuddy.out_itinerary out !! d = Some kv → (4 ≤ d)%nat →
        kv.2 = [].
Proof.
  intros self.
  apply (plan_trip_late_days_empty self "demo_user" "Goa"
           (Calendar.Date 2026 1 10) (Calendar.Date 2026 1 16)
           ["1"; "2"; "3"; "4"; "5"] None "2026-01-02T09:00:00" empty_world);
    reflexivity.
Defined.

(** X12. Two banks on one path do not see each other: when a bank that does
    not hold [u1] saves after another bank has saved [u1], the file no longer
    has [u1], and a bank built on it afterwards holds the later save only. *)
Theorem stale_bank_overwrites (a b : MemoryBank.t) (u1 u2 : string)
    (s1 s2 : Session.t loc) (w : world) :
  MemoryBank.path a = MemoryBank.path b →
  u1 ≠ u2 →
  MemoryBank.data b !! u1 = None →
  let '(_, w1) := MemoryBank.save_session a u1 s1 w in
  let '(_, w2) := MemoryBank.save_session b u2 s2 w1 in
  let '(c, w3) := MemoryBank.init (MemoryBank.path a) w2 in
  MemoryBank.data c !! u1 = None
  ∧ ∃ s, MemoryBank.data c !! u2 = Some s
         ∧ dump_session w3 s = dump_session w1 s2.
Proof.
  intros Hpath Hne Hb.
  cbn [MemoryBank.save_session MemoryBank.path MemoryBank.data].
  set (w1 := write_json (MemoryBank.path a) _ w).
  pose proof (save_session_reload b u2 s2 w1) as Hreload.
  cbv zeta in Hreload.
  cbn [MemoryBank.save_session fst snd MemoryBank.path MemoryBank.data]
    in Hreload.
  unfold MemoryBank.init. rewrite Hpath.
  destruct (read_json _ _) as [data w3] eqn:Hrd.
  cbn [fst snd] in Hreload. simpl. split.
  - assert ((dump_session w3 <$> data) !! u1 = None) as Hu1.
    { by rewrite Hreload, lookup_fmap, lookup_insert_ne, Hb. }
    rewrite lookup_fmap in Hu1. by destruct (data !! u1).
  - assert ((dump_session w3 <$> data) !! u2 = Some (dump_session w1 s2))
      as Hu2.
    { by rewrite Hreload, lookup_fmap, lookup_insert_eq. }
    rewrite lookup_fmap in Hu2.
    destruct (data !! u2) as [s|]; [|done].
    apply (inj Some) in Hu2. by exists s.
Qed.

Lemma stale_bank_overwrites_witness :
  let a := MemoryBank.mk demo_path ∅ in
  let b := MemoryBank.mk demo_path ∅ in
  let '(_, w1) :=
    MemoryBank.save_session a "ann" (Session.mk 1%positive []) empty_world in
  let '(_, w2) :=
    MemoryBank.save_session b "bob" (Session.mk 2%positive []) w1 in
  let '(c, w3) := MemoryBank.init (MemoryBank.path a) w2 in
  MemoryBank.data c !! "ann" = None
  ∧ ∃ s, MemoryBank.data c !! "bob" = Some s
         ∧ dump_session w3 s = dump_session w1 (Session.mk 2%positive []).
Proof.
  intros a b.
  apply (stale_bank_overwrites a b "ann" "bob" (Session.mk 1%positive [])
           (Session.mk 2%positive []) empty_world).
  - reflexivity.
  - discriminate.
  - reflexivity.
Defined.

(** X13. In memory the records share the session's dictionary, and
    [plan_trip] keeps it so: if every record of the stored session refers to
    the session's preference dictionary (as with no stored session), then so
    does every record of the session [plan_trip] returns, and in the file
    every record of that user shows the session's current preferences. *)
Theorem plan_trip_records_share_preferences (self : TravelBuddy.t)
    (user_id destination : string) (sd ed : Calendar.date)
    (interests : list string) (preferences : option prefs) (now : string)
    (w : world) :
  Calendar.valid sd = true → Calendar.valid ed = true →
  (∀ s, MemoryBank.data (TravelBuddy.memory self) !! user_id = Some s →
        shares_preferences s) →
  let '(r, _, w') :=
    TravelBuddy.plan_trip self user_id destination
      (Calendar.isoformat sd) (Calendar.isoformat ed)
      interests preferences now w in
  ∃ out,
    r = Ok out
    ∧ shares_preferences (TravelBuddy.out_session out)
    ∧ ∃ doc saved,
        files w' !! MemoryBank.path (TravelBuddy.memory self) = Some doc
        ∧ doc !! user_id = Some saved
        ∧ Forall (λ record,
                    Trip.preferences record = Session.preferences saved)
            (Session.trips saved).
Proof.
  intros Hsd Hed Hshares.
  set (top := take 12 (ResearchAgent.run (TravelBuddy.search_tool self)
                         destination interests 5)).
  pose proof (build_itinerary_schedule top sd ed Hsd Hed) as Hok.
  rewrite (plan_trip_ok _ _ _ _ _ _ _ _ _ _ Hok). cbv zeta.
  destruct (get_session_bank (TravelBuddy.memory self) user_id w) as [-> _].
  set (gs := MemoryBank.get_session (TravelBuddy.memory self) user_id w).
  assert (shares_preferences gs.1.1) as Hprior.
  { unfold gs, MemoryBank.get_session.
    destruct (MemoryBank.data (TravelBuddy.memory self) !! user_id)
      as [s|] eqn:Hs; [by apply Hshares|].
    destruct (alloc ∅ w). constructor. }
  set (session := Session.mk _ _).
  assert (shares_preferences session) as Hsession.
  { unfold shares_preferences, session. simpl.
    apply Forall_app. split; [exact Hprior|]. by repeat constructor. }
  eexists. split; [reflexivity|]. split; [exact Hsession|].
  cbn [MemoryBank.save_session fst snd MemoryBank.path MemoryBank.data
       write_json files].
  eexists _, _. split_and!.
  - apply lookup_insert_eq.
  - by rewrite lookup_fmap, lookup_insert_eq.
  - unfold dump_session, Session.map. simpl.
    apply Forall_fmap. eapply Forall_impl; [exact Hsession|].
    intros record Hrecord. simpl. by rewrite Hrecord.
Qed.

Lemma plan_trip_records_share_preferences_witness :
  let self :=
    TravelBuddy.mk (MemoryBank.mk demo_path ∅) search_tool_stub in
  let '(r, _, w') :=
    TravelBuddy.plan_trip self "demo_user" "Chennai"
      (Calendar.isoformat (Calendar.Date 2025 12 10))
      (Calendar.isoformat (Calendar.Date 2025 12 12))
      ["beaches"; "markets"] (Some {["diet" := VStr "veg"]})
      "2025-12-01T10:00:00" empty_world in
  ∃ out,
    r = Ok out
    ∧ shares_preferences (TravelBuddy.out_session out)
    ∧ ∃ doc saved,
        files w' !! MemoryBank.path (TravelBuddy.memory self) = Some doc
        ∧ doc !! "demo_user" = Some saved
        ∧ Forall (λ record,
                    Trip.preferences record = Session.preferences saved)
            (Session.trips saved).
Proof.
  intros self.
  apply (plan_trip_records_share_preferences self "demo_user" "Chennai"
           (Calendar.Date 2025 12 10) (Calendar.Date 2025 12 12)
           ["beaches"; "markets"] (Some {["diet" := VStr "veg"]})
           "2025-12-01T10:00:00" empty_world).
  - reflexivity.
  - reflexivity.
  - intros s Hs. discriminate Hs.
Defined.

(** X14. After [save_session] the bank gives the saved session back for
    that user and the sessions it held for the other users; the path, the
    dictionaries and the files at other paths are as before. *)
Theorem save_session_get_session (self : MemoryBank.t) (user_id : string)
    (session : Session.t loc) (w : world) :
  let '(self', w') := MemoryBank.save_session self user_id session w in
  MemoryBank.get_session self' user_id w' = (session, self', w')
  ∧ (∀ u s, u ≠ user_id → MemoryBank.data self !! u = Some s →
       MemoryBank.get_session self' u w' = (s, self', w'))
  ∧ MemoryBank.path self' = MemoryBank.path self
  ∧ heap w' = heap w
  ∧ ∀ p, p ≠ MemoryBank.path self → files w' !! p = files w !! p.
Proof.
  cbn [MemoryBank.save_session]. unfold MemoryBank.get_session.
  cbn [MemoryBank.data MemoryBank.path]. split_and!.
  - by rewrite lookup_insert_eq.
  - intros u s Hu Hs. by rewrite lookup_insert_ne, Hs.
  - done.
  - done.
  - intros p Hp. unfold write_json. simpl. by rewrite lookup_insert_ne.
Qed.

Lemma save_session_get_session_witness :
  let self :=
    MemoryBank.mk demo_path {["ann" := Session.mk 1%positive []]} in
  let '(self', w') :=
    MemoryBank.save_session self "bob" (Session.mk 2%positive [])
      empty_world in
  MemoryBank.get_session self' "ann" w' = (Session.mk 1%positive [], self', w').
Proof.
  intros self.
  pose proof (save_session_get_session self "bob" (Session.mk 2%positive [])
                empty_world) as H.
  destruct (MemoryBank.save_session _ _ _ _) as [self' w'].
  destruct H as (_ & H & _). apply H.
  - discriminate.
  - reflexivity.
Defined.

(** X15. The first plan on a path that has no file yet creates the file with
    that user alone: the supplied preferences and one trip. *)
Theorem first_plan_creates_store (path : string)
    (tool : string → Z → list Place) (user_id destination : string)
    (sd ed : Calendar.date) (interests : list string)
    (preferences : option prefs) (now : string) (w : world) :
  files w !! path = None →
  Calendar.valid sd = true → Calendar.valid ed = true →
  let start_date := Calendar.isoformat sd in
  let end_date := Calendar.isoformat ed in
  let '(tb, w0) := TravelBuddy.init path tool w in
  let '(r, _, w') :=
    TravelBuddy.plan_trip tb user_id destination start_date end_date
      interests preferences now w0 in
  ∃ out,
    r = Ok out
    ∧ files w' !! path
      = Some {[ user_id :=
                  Session.mk (default ∅ preferences)
                    [Trip.mk destination start_date end_date
                       (TravelBuddy.out_itinerary out)
                       (default ∅ preferences) now] ]}.
Proof.
  intros Hnone Hsd Hed start_date end_date.
  unfold TravelBuddy.init, MemoryBank.init, read_json. rewrite Hnone.
  set (tb := TravelBuddy.mk (MemoryBank.mk path ∅) tool).
  set (top := take 12 (ResearchAgent.run (TravelBuddy.search_tool tb)
                         destination interests 5)).
  pose proof (build_itinerary_schedule top sd ed Hsd Hed) as Hok.
  rewrite (plan_trip_ok _ _ _ _ _ _ _ _ _ _ Hok). cbv zeta.
  unfold MemoryBank.get_session. simpl MemoryBank.data.
  rewrite lookup_empty.
  destruct (alloc_spec ∅ w) as (Hfresh & Hheap & Hfiles).
  destruct (alloc ∅ w) as [l w1]. cbn [fst snd] in *.
  eexists. split; [reflexivity|].
  cbn [MemoryBank.save_session fst snd MemoryBank.path MemoryBank.data
       write_json files Session.preferences Session.trips
       TravelBuddy.out_itinerary].
  rewrite lookup_insert_eq. f_equal.
  change (MemoryBank.data (TravelBuddy.memory tb))
    with (∅ : gmap string (Session.t loc)).
  rewrite insert_empty, map_fmap_singleton. f_equal.
  assert (deref (update l (default ∅ preferences) w1) l
          = default ∅ preferences) as Hl.
  { rewrite deref_update. unfold deref. rewrite Hheap.
    rewrite lookup_total_insert_eq. apply (right_id ∅ (∪)). }
  unfold dump_session, Session.map, Trip.map. simpl.
  change (heap w1 !!! l) with (deref w1 l).
  by rewrite Hl.
Qed.

Lemma first_plan_creates_store_witness :
  let start_date := Calendar.isoformat (Calendar.Date 2025 12 10) in
  let end_date := Calendar.isoformat (Calendar.Date 2025 12 12) in
  let '(tb, w0) := TravelBuddy.init demo_path search_tool_stub empty_world in
  let '(r, _, w') :=
    TravelBuddy.plan_trip tb "demo_user" "Chennai" start_date end_date
      ["beaches"; "markets"] (Some {["diet" := VStr "veg"]})
      "2025-12-01T10:00:00" w0 in
  ∃ out,
    r = Ok out
    ∧ files w' !! demo_path
      = Some {[ "demo_user" :=
                  Session.mk (default ∅ (Some {["diet" := VStr "veg"]}))
                    [Trip.mk "Chennai" start_date end_date
                       (TravelBuddy.out_itinerary out)
                       (default ∅ (Some {["diet" := VStr "veg"]}))
                       "2025-12-01T10:00:00"] ]}.
Proof.
  apply (first_plan_creates_store demo_path search_tool_stub "demo_user"
           "Chennai" (Calendar.Date 2025 12 10) (Calendar.Date 2025 12 12)
           ["beaches"; "markets"] (Some {["diet" := VStr "veg"]})
           "2025-12-01T10:00:00" empty_world); reflexivity.
Defined.

(** ** More on the dates *)

(** X16. The text of a valid date reads back as that date, so two valid dates
    with the same text are the same date. *)
Theorem date_text_round_trip (d1 d2 : Calendar.date) :
  Calendar.valid d1 = true → Calendar.valid d2 = true →
  Calendar.fromisoformat (Calendar.isoformat d1) = Ok d1
  ∧ (Calendar.isoformat d1 = Calendar.isoformat d2 → d1 = d2).
Proof.
  intros H1 H2. split.
  - by apply CalendarFacts.fromisoformat_isoformat.
  - by apply CalendarFacts.isoformat_inj.
Qed.

Lemma date_text_round_trip_witness :
  Calendar.fromisoformat (Calendar.isoformat (Calendar.Date 2024 2 29))
  = Ok (Calendar.Date 2024 2 29)
  ∧ (Calendar.isoformat (Calendar.Date 2024 2 29)
     = Calendar.isoformat (Calendar.Date 2024 2 29) →
     Calendar.Date 2024 2 29 = Calendar.Date 2024 2 29).
Proof.
  apply (date_text_round_trip (Calendar.Date 2024 2 29)
           (Calendar.Date 2024 2 29)); reflexivity.
Defined.

(** X17. Adding [k] days to a valid date gives a valid date that is [k] days
    later when the result is between 0001-01-01 and 9999-12-31, and raises
    [OverflowError] otherwise. *)
Theorem add_days_days_between (d : Calendar.date) (k : Z) :
  Calendar.valid d = true →
  (1 ≤ Calendar.toordinal d + k ≤ Calendar.MAXORDINAL →
   ∃ t, Calendar.add_days d k = Ok t
        ∧ Calendar.valid t = true
        ∧ Calendar.days_between d t = k)
  ∧ (¬ 1 ≤ Calendar.toordinal d + k ≤ Calendar.MAXORDINAL →
     Calendar.add_days d k = Raise OverflowError).
Proof.
  intros Hd. unfold Calendar.add_days. split.
  - intros Hrange.
    replace ((1 <=? Calendar.toordinal d + k)
             && (Calendar.toordinal d + k <=? Calendar.MAXORDINAL)) with true
      by (symmetry; apply andb_true_iff; rewrite !Z.leb_le; lia).
    destruct (CalendarFacts.toordinal_ord2ymd _ Hrange) as [Ho Hv].
    eexists. split_and!; [reflexivity|done|].
    unfold Calendar.days_between. rewrite Ho. lia.
  - intros Hrange.
    replace ((1 <=? Calendar.toordinal d + k)
             && (Calendar.toordinal d + k <=? Calendar.MAXORDINAL)) with false;
      [done|].
    symmetry. apply andb_false_iff. rewrite !Z.leb_gt. lia.
Qed.

Lemma add_days_days_between_witness :
  (∃ t, Calendar.add_days (Calendar.Date 2024 2 28) 2 = Ok t
        ∧ Calendar.valid t = true
        ∧ Calendar.days_between (Calendar.Date 2024 2 28) t = 2)
  ∧ Calendar.add_days (Calendar.Date 9999 12 31) 1 = Raise OverflowError.
Proof.
  split.
  - apply (proj1 (add_days_days_between (Calendar.Date 2024 2 28) 2
                    eq_refl)).
    vm_compute. split; discriminate.
  - apply (proj2 (add_days_days_between (Calendar.Date 9999 12 31) 1
                    eq_refl)).
    vm_compute. intros [_ H]. by apply H.
Defined.

(** ** What [plan_trip] leaves alone *)

Lemma get_session_deref (self : MemoryBank.t) (user_id : string) (w : world)
    (l : loc) :
  deref (MemoryBank.get_session self user_id w).2 l = deref w l.
Proof.
  unfold MemoryBank.get_session.
  destruct (MemoryBank.data self !! user_id); [done|].
  destruct (alloc_spec ∅ w) as (Hfresh & Hheap & _).
  destruct (alloc ∅ w) as [l' w']. simpl in *.
  unfold deref. rewrite Hheap.
  destruct (decide (l' = l)) as [<-|Hne].
  - by rewrite lookup_total_insert_eq, lookup_total_alt, Hfresh.
  - by rewrite lookup_total_insert_ne.
Qed.

Lemma plan_trip_world (self : TravelBuddy.t)
    (user_id destination start_date end_date : string)
    (interests : list string) (preferences : option prefs) (now : string)
    (w : world) (l : loc) :
  let gs := MemoryBank.get_session (TravelBuddy.memory self) user_id w in
  deref (TravelBuddy.plan_trip self user_id destination start_date end_date
           interests preferences now w).2 l
  = deref (update (Session.preferences gs.1.1) (default ∅ preferences) gs.2)
      l.
Proof.
  cbv zeta.
  destruct (PlannerAgent.build_itinerary
              (take 12 (ResearchAgent.run (TravelBuddy.search_tool self)
                          destination interests 5)) start_date end_date)
    as [itinerary|e] eqn:Hbuild.
  - by rewrite (plan_trip_ok _ _ _ _ _ _ _ _ _ _ Hbuild).
  - by rewrite (plan_trip_raise _ _ _ _ _ _ _ _ _ _ Hbuild).
Qed.

(** X18. [plan_trip] writes to one dictionary only, the preferences of the
    session it works on; when no preferences are given it changes the
    content of no dictionary at all. *)
Theorem plan_trip_other_dictionaries (self : TravelBuddy.t)
    (user_id destination start_date end_date : string)
    (interests : list string) (preferences : option prefs) (now : string)
    (w : world) :
  let prior :=
    (MemoryBank.get_session (TravelBuddy.memory self) user_id w).1.1 in
  let '(_, _, w') :=
    TravelBuddy.plan_trip self user_id destination start_date end_date
      interests preferences now w in
  (∀ l, l ≠ Session.preferences prior → deref w' l = deref w l)
  ∧ (preferences = None → ∀ l, deref w' l = deref w l).
Proof.
  intros prior.
  pose proof (plan_trip_world self user_id destination start_date end_date
                interests preferences now w) as Hworld.
  cbv zeta in Hworld. fold prior in Hworld.
  destruct (TravelBuddy.plan_trip _ _ _ _ _ _ _ _ _) as [[r self'] w'].
  simpl in Hworld. split.
  - intros l Hl. rewrite Hworld, deref_update_ne by done.
    apply get_session_deref.
  - intros -> l. rewrite Hworld. simpl.
    destruct (decide (Session.preferences prior = l)) as [<-|Hne].
    + rewrite deref_update, (left_id ∅ (∪)). apply get_session_deref.
    + rewrite deref_update_ne by done. apply get_session_deref.
Qed.

Lemma plan_trip_other_dictionaries_witness :
  let session := Session.mk 1%positive [] in
  let self :=
    TravelBuddy.mk (MemoryBank.mk demo_path {["demo_user" := session]})
      search_tool_stub in
  let w := mkWorld {[1%positive := {["diet" := VStr "veg"]}]} ∅ in
  deref (TravelBuddy.plan_trip self "demo_user" "Goa" "2026-01-10"
           "2026-01-11" ["beaches"] None "2026-01-02T09:00:00" w).2
    1%positive
  = deref w 1%positive.
Proof.
  intros session self w.
  pose proof (plan_trip_other_dictionaries self "demo_user" "Goa"
                "2026-01-10" "2026-01-11" ["beaches"] None
                "2026-01-02T09:00:00" w) as H.
  cbv zeta in H.
  destruct (TravelBuddy.plan_trip _ _ _ _ _ _ _ _ _) as [[r self'] w'].
  destruct H as [_ H]. apply H. reflexivity.
Defined.
